(** * clean-code-mcp: the relevance-ranking search core

    A shallow embedding of [src/search/tokenizer.ts], [src/search/scoring.ts],
    the two search tools built on them and the principle corpus of
    [src/data/principles.ts], followed by the properties the specification
    states about them.

    Conventions of the embedding:
    - a JavaScript string is the list of its UTF-16 code units ([jsstring]);
    - a JavaScript number that only ever holds a small integer (a score, a
      boost count) is a [Z];
    - [Map] and [Set] are stdpp's [gmap] and [gset]; only [get], [set] and
      [has] are used by the source, so insertion order plays no role;
    - [for ... of] loops that accumulate into a local are [fold_left]s with
      the loop body as the step function. *)

From Stdlib Require Import ZArith NArith Lia Sorted.
From stdpp Require Import gmap strings list.

Open Scope N_scope.

(** ** Strings of the host language *)

Abbreviation jsstring := (list N).

Module Js.

(** Source literals are written as Rocq strings (UTF-8 bytes) and decoded
    into UTF-16 code units by [utf16]. *)
Definition emit (cp : N) : jsstring :=
  if cp <? 65536 then [cp]
  else [55296 + N.shiftr (cp - 65536) 10; 56320 + N.land (cp - 65536) 1023].

Fixpoint utf16_go (acc : N) (pending : nat) (s : string) : jsstring :=
  match s with
  | EmptyString => []
  | String a s' =>
      let b := Ascii.N_of_ascii a in
      match pending with
      | O =>
          if b <? 128 then b :: utf16_go 0 0 s'
          else if b <? 224 then utf16_go (N.land b 31) 1 s'
          else if b <? 240 then utf16_go (N.land b 15) 2 s'
          else utf16_go (N.land b 7) 3 s'
      | S k =>
          let acc' := N.lor (N.shiftl acc 6) (N.land b 63) in
          match k with
          | O => emit acc' ++ utf16_go 0 0 s'
          | S _ => utf16_go acc' k s'
          end
      end
  end.

Definition utf16 (s : string) : jsstring := utf16_go 0 0 s.

(** [String.prototype.toLowerCase], one code unit at a time.  The mapping
    is the Unicode one on Basic Latin and the Latin-1 Supplement (A-Z and
    U+00C0..U+00DE without the multiplication sign); every other code unit
    is kept, which is what the host does for all code units that have no
    lowercase mapping (digits, punctuation, U+2014, ...).  The embedding is
    thus exact on every string without cased letters beyond U+00FF, which
    covers the corpus, the keyword tables and all tokens. *)
Definition lowerUnit (c : N) : N :=
  if (65 <=? c) && (c <=? 90) then c + 32
  else if (192 <=? c) && (c <=? 222) && negb (c =? 215) then c + 32
  else c.

Definition toLowerCase (s : jsstring) : jsstring := map lowerUnit s.

(** The code units that [String.prototype.trim] strips and that the
    regular-expression class [\s] matches: WhiteSpace and LineTerminator. *)
Definition isWhiteSpace (c : N) : bool :=
  ((9 <=? c) && (c <=? 13)) || (c =? 32) || (c =? 160) || (c =? 5760)
  || ((8192 <=? c) && (c <=? 8202)) || (c =? 8232) || (c =? 8233)
  || (c =? 8239) || (c =? 8287) || (c =? 12288) || (c =? 65279).

Fixpoint trimStart (s : jsstring) : jsstring :=
  match s with
  | c :: s' => if isWhiteSpace c then trimStart s' else s
  | [] => []
  end.

Definition trimEnd (s : jsstring) : jsstring := rev (trimStart (rev s)).

Definition trim (s : jsstring) : jsstring := trimEnd (trimStart s).

(** [s.startsWith(p)] and [s.includes(p)] on code units. *)
Fixpoint startsWith (s p : jsstring) : bool :=
  match p, s with
  | [], _ => true
  | _ :: _, [] => false
  | a :: p', b :: s' => (a =? b) && startsWith s' p'
  end.

Fixpoint includes (s p : jsstring) : bool :=
  startsWith s p ||
  match s with
  | [] => false
  | _ :: s' => includes s' p
  end.

(** [tokens.join(sep)]. *)
Fixpoint join (sep : jsstring) (l : list jsstring) : jsstring :=
  match l with
  | [] => []
  | [x] => x
  | x :: l' => x ++ sep ++ join sep l'
  end.

(** [s.replace(/[C]+/g, by)] for a character class [C]: a left-to-right
    scan in which every maximal run of code units of the class is replaced
    by one copy of [by]; [inRun] tells that the previous code unit belonged
    to a run that has already been replaced. *)
Fixpoint replaceRuns_go (inClass : N -> bool) (by_ : jsstring)
    (inRun : bool) (s : jsstring) : jsstring :=
  match s with
  | [] => []
  | c :: s' =>
      if inClass c then
        if inRun then replaceRuns_go inClass by_ true s'
        else by_ ++ replaceRuns_go inClass by_ true s'
      else c :: replaceRuns_go inClass by_ false s'
  end.

Definition replaceRuns (inClass : N -> bool) (by_ : jsstring) (s : jsstring)
    : jsstring :=
  replaceRuns_go inClass by_ false s.

(** [s.split(/[C]+/)]: the pieces between the maximal runs of class [C],
    in order; a run at the very start or end leaves an empty piece there and
    the empty string splits into one empty piece.  [cur] holds the piece
    being read, last code unit first. *)
Fixpoint splitRuns_go (inClass : N -> bool) (inRun : bool) (cur : jsstring)
    (s : jsstring) : list jsstring :=
  match s with
  | [] => [rev cur]
  | c :: s' =>
      if inClass c then
        if inRun then splitRuns_go inClass true cur s'
        else rev cur :: splitRuns_go inClass true [] s'
      else splitRuns_go inClass false (c :: cur) s'
  end.

Definition splitRuns (inClass : N -> bool) (s : jsstring) : list jsstring :=
  splitRuns_go inClass false [] s.

(** [Array.prototype.sort(cmp)]: the sort is stable (ECMAScript 2019 and
    later), so with a consistent comparator its result is the one of a
    stable insertion sort: [x] is placed before the first element it does
    not compare greater than. *)
Section Sort.
Context {A : Type} (cmp : A -> A -> Z).

Fixpoint insert_sorted (x : A) (l : list A) : list A :=
  match l with
  | [] => [x]
  | y :: l' => if (cmp x y <=? 0)%Z then x :: l else y :: insert_sorted x l'
  end.

Definition sort (l : list A) : list A := foldr insert_sorted [] l.
End Sort.

(** [s.split(sep)] for a separator of one code unit: the pieces between the
    occurrences of [sep]; [n] occurrences give [n + 1] pieces, empty ones
    included. *)
Fixpoint splitOn_go (sep : N) (cur : jsstring) (s : jsstring)
    : list jsstring :=
  match s with
  | [] => [rev cur]
  | c :: s' =>
      if c =? sep then rev cur :: splitOn_go sep [] s'
      else splitOn_go sep (c :: cur) s'
  end.

Definition splitOn (sep : N) (s : jsstring) : list jsstring :=
  splitOn_go sep [] s.

(** [a.slice(start, end)] of an array or a string, for indices that are not
    negative: the elements at positions [start .. end - 1] that exist. *)
Definition slice {A : Type} (a : list A) (start end_ : nat) : list A :=
  take (end_ - start) (drop start a).

(** [a.includes(x)] and [a.find(p)] of an array. *)
Definition arrayIncludes {A : Type} `{EqDecision A} (a : list A) (x : A)
    : bool :=
  existsb (fun y => bool_decide (y = x)) a.

Definition find {A : Type} (p : A -> bool) (a : list A) : option A :=
  List.find p a.

(** [[...new Set(a)]]: the distinct elements of [a], each at the place of
    its first occurrence. *)
Definition setOf {A : Type} `{EqDecision A} (a : list A) : list A :=
  fold_left (fun set x => if arrayIncludes set x then set else set ++ [x])
    a [].

(** A [Map] whose iteration order matters is the list of its entries in
    insertion order: [get] finds the entry of a key, [set] replaces the value
    of a present key in place and appends an absent key at the end. *)
Fixpoint mapGet {K V : Type} `{EqDecision K} (m : list (K * V)) (k : K)
    : option V :=
  match m with
  | [] => None
  | (k', v) :: m' => if decide (k' = k) then Some v else mapGet m' k
  end.

Fixpoint mapSet {K V : Type} `{EqDecision K} (m : list (K * V)) (k : K)
    (v : V) : list (K * V) :=
  match m with
  | [] => [(k, v)]
  | (k', v') :: m' =>
      if decide (k' = k) then (k, v) :: m' else (k', v') :: mapSet m' k v
  end.


End Js.

Abbreviation js := Js.utf16.

(** ** src/data/categories.ts *)

(** [PrincipleCategory] is the union of the thirteen string literals of
    [CATEGORIES]; a value of the type is that string at run time, which
    [categoryName] gives back. *)
Inductive PrincipleCategory : Set :=
  | naming | functions | comments | formatting | error_handling
  | unit_testing | classes | solid | code_smells
  | objects_and_data_structures | concurrency | systems | emergence.

Definition CATEGORIES : list PrincipleCategory :=
  [ naming; functions; comments; formatting; error_handling; unit_testing;
    classes; solid; code_smells; objects_and_data_structures; concurrency;
    systems; emergence ].

Definition categoryName (c : PrincipleCategory) : jsstring :=
  match c with
  | naming => js "naming"
  | functions => js "functions"
  | comments => js "comments"
  | formatting => js "formatting"
  | error_handling => js "error-handling"
  | unit_testing => js "unit-testing"
  | classes => js "classes"
  | solid => js "solid"
  | code_smells => js "code-smells"
  | objects_and_data_structures => js "objects-and-data-structures"
  | concurrency => js "concurrency"
  | systems => js "systems"
  | emergence => js "emergence"
  end.

#[global] Instance PrincipleCategory_eq_dec : EqDecision PrincipleCategory.
Proof. solve_decision. Defined.

Definition category_code (c : PrincipleCategory) : nat :=
  match c with
  | naming => 0 | functions => 1 | comments => 2 | formatting => 3
  | error_handling => 4 | unit_testing => 5 | classes => 6 | solid => 7
  | code_smells => 8 | objects_and_data_structures => 9 | concurrency => 10
  | systems => 11 | emergence => 12
  end%nat.

Definition category_of_code (n : nat) : option PrincipleCategory :=
  CATEGORIES !! n.

#[global] Instance PrincipleCategory_countable : Countable PrincipleCategory.
Proof.
  apply (inj_countable category_code category_of_code).
  intros []; reflexivity.
Defined.
(** [CATEGORIES.includes(value)] on the strings of the array. *)
Definition isValidCategory (value : jsstring) : bool :=
  Js.arrayIncludes (map categoryName CATEGORIES) value.

(** ** src/search/tokenizer.ts *)

Definition STOP_WORDS : gset jsstring :=
  list_to_set (map js [
    "a"; "an"; "the"; "is"; "it"; "to"; "in"; "of"; "and"; "or"; "for";
    "on"; "at"; "by"; "with"; "from"; "as"; "be"; "this"; "that"; "not";
    "but"; "are"; "was"; "were"; "been"; "being"; "have"; "has"; "had";
    "do"; "does"; "did"; "will"; "would"; "could"; "should"; "may"; "might";
    "can"; "shall"; "i"; "you"; "we"; "they"; "he"; "she"; "my"; "your";
    "our"; "their"; "its"; "me"; "us"; "them"; "what"; "how"; "when";
    "where"; "which"; "who"; "whom"; "why" ]).

Definition CATEGORY_KEYWORDS : gmap jsstring PrincipleCategory :=
  list_to_map [
    (js "name", naming);
    (js "names", naming);
    (js "naming", naming);
    (js "variable", naming);
    (js "variables", naming);

    (js "function", functions);
    (js "functions", functions);
    (js "method", functions);
    (js "methods", functions);
    (js "argument", functions);
    (js "arguments", functions);
    (js "parameter", functions);
    (js "parameters", functions);
    (js "nesting", functions);
    (js "nested", functions);
    (js "guard", functions);
    (js "conditional", functions);
    (js "if-else", functions);

    (js "comment", comments);
    (js "comments", comments);
    (js "documentation", comments);
    (js "javadoc", comments);
    (js "jsdoc", comments);

    (js "format", formatting);
    (js "formatting", formatting);
    (js "indentation", formatting);
    (js "whitespace", formatting);
    (js "spacing", formatting);

    (js "error", error_handling);
    (js "errors", error_handling);
    (js "exception", error_handling);
    (js "exceptions", error_handling);
    (js "try-catch", error_handling);
    (js "null", error_handling);

    (js "test", unit_testing);
    (js "tests", unit_testing);
    (js "testing", unit_testing);
    (js "unit", unit_testing);
    (js "assert", unit_testing);
    (js "assertion", unit_testing);

    (js "class", classes);
    (js "classes", classes);
    (js "cohesion", classes);
    (js "responsibility", classes);

    (js "solid", solid);
    (js "srp", solid);
    (js "ocp", solid);
    (js "lsp", solid);
    (js "isp", solid);
    (js "dip", solid);

    (js "smell", code_smells);
    (js "smells", code_smells);
    (js "code-smell", code_smells);
    (js "duplication", code_smells);
    (js "magic-number", code_smells);
    (js "dead-code", code_smells);

    (js "object", objects_and_data_structures);
    (js "objects", objects_and_data_structures);
    (js "data", objects_and_data_structures);
    (js "dto", objects_and_data_structures);
    (js "demeter", objects_and_data_structures);
    (js "encapsulation", objects_and_data_structures);

    (js "concurrency", concurrency);
    (js "async", concurrency);
    (js "parallel", concurrency);
    (js "thread", concurrency);
    (js "race", concurrency);

    (js "system", systems);
    (js "systems", systems);
    (js "injection", systems);
    (js "dependency-injection", systems);

    (js "emergence", emergence);
    (js "simple", emergence);
    (js "simplicity", emergence);
    (js "design", emergence) ].

(** [CATEGORY_KEYWORDS] is a plain object literal, so [CATEGORY_KEYWORDS[token]]
    also finds the properties it inherits from [Object.prototype].  Each of
    them is a function or an object: truthy, and not a category. *)
Definition OBJECT_PROTOTYPE_KEYS : list jsstring :=
  map js [
    "constructor"; "hasOwnProperty"; "isPrototypeOf"; "propertyIsEnumerable";
    "toLocaleString"; "toString"; "valueOf"; "__proto__";
    "__defineGetter__"; "__defineSetter__"; "__lookupGetter__";
    "__lookupSetter__" ].

(** What a lookup in the keyword table can give, and hence what a key of the
    boost map can be at run time. *)
Inductive BoostKey : Set :=
  | Category (c : PrincipleCategory)
  | Inherited (property : jsstring).

#[global] Instance BoostKey_eq_dec : EqDecision BoostKey.
Proof. solve_decision. Defined.

#[global] Instance BoostKey_countable : Countable BoostKey.
Proof.
  apply (inj_countable'
           (fun k => match k with Category c => inl c | Inherited p => inr p end)
           (fun s => match s with inl c => Category c | inr p => Inherited p end)).
  intros []; reflexivity.
Defined.

(** [CATEGORY_KEYWORDS[token]]; [None] is [undefined]. *)
Definition keywordLookup (token : jsstring) : option BoostKey :=
  match CATEGORY_KEYWORDS !! token with
  | Some c => Some (Category c)
  | None =>
      if bool_decide (token ∈ OBJECT_PROTOTYPE_KEYS) then Some (Inherited token)
      else None
  end.

(** The class [[^a-z0-9\-]] of the regular expression in [tokenize] is the
    complement of [isTokenChar]. *)
Definition isTokenChar (c : N) : bool :=
  ((97 <=? c) && (c <=? 122)) || ((48 <=? c) && (c <=? 57)) || (c =? 45).

Definition tokenize (text : jsstring) : list jsstring :=
  List.filter (fun token => (1 <? length token)%nat)
    (Js.splitRuns Js.isWhiteSpace
       (Js.replaceRuns (fun c => negb (isTokenChar c)) (js " ")
          (Js.toLowerCase text))).

Definition removeStopWords (tokens : list jsstring) : list jsstring :=
  List.filter (fun token => negb (bool_decide (token ∈ STOP_WORDS))) tokens.

Definition detectCategoryBoosts (tokens : list jsstring) : gmap BoostKey Z :=
  fold_left
    (fun boosts token =>
       match keywordLookup token with
       | Some category =>
           let current := default 0%Z (boosts !! category) in
           <[category := (current + 1)%Z]> boosts
       | None => boosts
       end)
    tokens ∅.

(** ** src/data/principles.ts: the record *)

(** [examples] is never read by the search core and is left out. *)
Record CleanCodePrinciple : Set := {
  id : jsstring;
  name : jsstring;
  category : PrincipleCategory;
  description : jsstring;
  tags : list jsstring
}.

#[global] Instance CleanCodePrinciple_eq_dec : EqDecision CleanCodePrinciple.
Proof. solve_decision. Defined.

(** ** src/search/scoring.ts *)

Module SCORE_WEIGHTS.
Definition EXACT_ID_MATCH : Z := 100.
Definition NAME_CONTAINS : Z := 80.
Definition TAG_EXACT : Z := 70.
Definition TAG_PARTIAL : Z := 50.
Definition DESCRIPTION_CONTAINS : Z := 30.
Definition CATEGORY_MATCH : Z := 20.
End SCORE_WEIGHTS.

Definition CATEGORY_BOOST_MULTIPLIER : Z := 15.

Definition scorePrincipleByQuery (principle : CleanCodePrinciple)
    (query : jsstring) : Z :=
  let normalizedQuery := Js.trim (Js.toLowerCase query) in
  let score := 0%Z in
  if decide (id principle = normalizedQuery) then SCORE_WEIGHTS.EXACT_ID_MATCH
  else
    let score :=
      if Js.includes (Js.toLowerCase (name principle)) normalizedQuery
      then (score + SCORE_WEIGHTS.NAME_CONTAINS)%Z else score in
    let score :=
      fold_left
        (fun score tag =>
           if decide (tag = normalizedQuery)
           then (score + SCORE_WEIGHTS.TAG_EXACT)%Z
           else if Js.includes tag normalizedQuery
                   || Js.includes normalizedQuery tag
           then (score + SCORE_WEIGHTS.TAG_PARTIAL)%Z
           else score)
        (tags principle) score in
    let score :=
      if Js.includes (Js.toLowerCase (description principle)) normalizedQuery
      then (score + SCORE_WEIGHTS.DESCRIPTION_CONTAINS)%Z else score in
    let score :=
      if Js.includes (categoryName (category principle)) normalizedQuery
      then (score + SCORE_WEIGHTS.CATEGORY_MATCH)%Z else score in
    score.

Definition scorePrincipleByTokens (principle : CleanCodePrinciple)
    (tokens : list jsstring) (categoryBoosts : gmap BoostKey Z) : Z :=
  let score := 0%Z in
  let score :=
    fold_left (fun score token => (score + scorePrincipleByQuery principle token)%Z)
      tokens score in
  let boost := default 0%Z (categoryBoosts !! Category (category principle)) in
  let score := (score + boost * CATEGORY_BOOST_MULTIPLIER)%Z in
  score.

(** The [{ principle, score }] objects of the pipeline are pairs. *)
Definition rankPrinciples {T : Type} (principles : list T) (scoreFn : T -> Z)
    : list T :=
  map fst
    (Js.sort (fun a b => (snd b - snd a)%Z)
       (List.filter (fun entry => (0 <? snd entry)%Z)
          (map (fun principle => (principle, scoreFn principle)) principles))).

(** ** src/data/principles.ts: the corpus *)

(** The 63 records of [PRINCIPLES], in source order. *)
Definition PRINCIPLES : list CleanCodePrinciple := [
  {| id := js "use-intention-revealing-names";
     name := js "Use Intention-Revealing Names";
     category := naming;
     description :=
       js "Variable, function, and class names should reveal why they exist, what they do, and how they are used. A name that requires a comment to explain its purpose fails to reveal its intention.";
     tags := map js ["naming"; "readability"; "intention"; "variables"; "clarity"] |};
  {| id := js "avoid-disinformation";
     name := js "Avoid Disinformation";
     category := naming;
     description :=
       js "Do not use names that mislead the reader about the meaning of a variable or its type. Avoid using names like 'accountList' when the variable is not actually a List. Avoid names that vary in small ways.";
     tags := map js ["naming"; "misleading"; "disinformation"; "types"; "clarity"] |};
  {| id := js "make-meaningful-distinctions";
     name := js "Make Meaningful Distinctions";
     category := naming;
     description :=
       js "If names must be different, they should also mean something different. Number-series naming (a1, a2, ...) and noise words (Info, Data, the) are not meaningful distinctions.";
     tags := map js ["naming"; "distinction"; "noise-words"; "clarity"] |};
  {| id := js "use-pronounceable-names";
     name := js "Use Pronounceable Names";
     category := naming;
     description :=
       js "Names should be pronounceable so they can be discussed without sounding foolish. Programming is a social activity; if you can't pronounce a name, you can't discuss it without looking silly.";
     tags := map js ["naming"; "pronounceable"; "communication"; "readability"] |};
  {| id := js "use-searchable-names";
     name := js "Use Searchable Names";
     category := naming;
     description :=
       js "Single-letter names and numeric constants are hard to locate across a body of text. Longer names are easier to search for. The length of a name should correspond to the size of its scope.";
     tags := map js ["naming"; "searchable"; "constants"; "magic-numbers"; "scope"] |};
  {| id := js "avoid-encodings";
     name := js "Avoid Encodings";
     category := naming;
     description :=
       js "Hungarian notation, member prefixes (m_), and interface prefixes (I) add noise. Modern editors and languages make these encodings unnecessary. They add cognitive overhead and make names harder to read.";
     tags := map js ["naming"; "encodings"; "hungarian-notation"; "prefixes"; "interfaces"] |};
  {| id := js "class-names-should-be-nouns";
     name := js "Class Names Should Be Nouns";
     category := naming;
     description :=
       js "Classes and objects should have noun or noun phrase names. A class name should not be a verb. Avoid generic names like Manager, Processor, Data, or Info — prefer specific names that describe what the class represents.";
     tags := map js ["naming"; "classes"; "nouns"; "verbs"; "object-oriented"] |};
  {| id := js "method-names-should-be-verbs";
     name := js "Method Names Should Be Verbs";
     category := naming;
     description :=
       js "Methods should have verb or verb phrase names. Accessors, mutators, and predicates should be prefixed with get, set, and is according to convention.";
     tags := map js ["naming"; "methods"; "verbs"; "accessors"; "predicates"] |};
  {| id := js "pick-one-word-per-concept";
     name := js "Pick One Word Per Concept";
     category := naming;
     description :=
       js "Use one word for one abstract concept and stick with it. It is confusing to have fetch, retrieve, and get as equivalent methods of different classes. A consistent lexicon makes code easier to navigate.";
     tags := map js ["naming"; "consistency"; "vocabulary"; "concept"; "lexicon"] |};
  {| id := js "use-solution-domain-names";
     name := js "Use Solution Domain Names";
     category := naming;
     description :=
       js "Use computer science terms, algorithm names, pattern names, and math terms when appropriate. The people reading your code are programmers — names like 'visitor', 'queue', or 'jobQueue' are clear to them.";
     tags := map js ["naming"; "domain"; "patterns"; "technical"; "vocabulary"] |};
  {| id := js "keep-functions-small";
     name := js "Keep Functions Small";
     category := functions;
     description :=
       js "Functions should be small. The first rule of functions is that they should be small. The second rule is that they should be smaller than that. Small functions are easier to read, understand, and maintain.";
     tags := map js ["functions"; "small"; "size"; "readability"; "decomposition"] |};
  {| id := js "do-one-thing";
     name := js "Do One Thing";
     category := functions;
     description :=
       js "Functions should do one thing. They should do it well. They should do it only. If a function does steps that are one level of abstraction below the stated name of the function, it is doing one thing.";
     tags := map js ["functions"; "single-responsibility"; "one-thing"; "srp"; "decomposition"] |};
  {| id := js "one-level-of-abstraction";
     name := js "One Level of Abstraction per Function";
     category := functions;
     description :=
       js "Mixing levels of abstraction within a function is confusing. Readers may not be able to tell whether an expression is an essential concept or a detail. Keep each function at a single, consistent level of abstraction.";
     tags := map js ["functions"; "abstraction"; "levels"; "readability"; "stepdown"] |};
  {| id := js "use-descriptive-names";
     name := js "Use Descriptive Names for Functions";
     category := functions;
     description :=
       js "A long descriptive name is better than a short enigmatic name. A long descriptive name is better than a long descriptive comment. Don't be afraid to make a name long if it improves clarity.";
     tags := map js ["functions"; "naming"; "descriptive"; "readability"; "self-documenting"] |};
  {| id := js "minimize-function-arguments";
     name := js "Minimize Function Arguments";
     category := functions;
     description :=
       js "The ideal number of arguments for a function is zero (niladic). Next comes one (monadic), followed by two (dyadic). Three arguments (triadic) should be avoided. More than three requires very special justification. Use objects to group related arguments.";
     tags := map js ["functions"; "arguments"; "parameters"; "objects"; "arity"] |};
  {| id := js "avoid-flag-arguments";
     name := js "Avoid Flag Arguments";
     category := functions;
     description :=
       js "Boolean arguments loudly declare that the function does more than one thing. They are confusing and should be avoided. Instead, split the function into two with descriptive names.";
     tags := map js ["functions"; "boolean"; "flags"; "splitting"; "srp"] |};
  {| id := js "avoid-side-effects-in-functions";
     name := js "Avoid Side Effects";
     category := functions;
     description :=
       js "Side effects are lies. A function promises to do one thing, but it also does hidden things — modifying globals, writing files, or changing passed-in arguments. If a function must have a side effect, make it explicit in the name.";
     tags := map js ["functions"; "side-effects"; "purity"; "hidden-behavior"; "coupling"] |};
  {| id := js "command-query-separation";
     name := js "Command-Query Separation";
     category := functions;
     description :=
       js "Functions should either do something (command) or answer something (query), but not both. Doing both leads to confusion. A function that changes state should not return a value, and vice versa.";
     tags := map js ["functions"; "command-query"; "cqs"; "separation"; "design"] |};
  {| id := js "prefer-exceptions-to-error-codes";
     name := js "Prefer Exceptions to Returning Error Codes";
     category := functions;
     description :=
       js "Returning error codes leads to deeply nested structures and forces callers to deal with errors immediately. Exceptions allow error processing to be separated from the happy path, making code cleaner.";
     tags := map js ["functions"; "errors"; "exceptions"; "error-codes"; "nesting"] |};
  {| id := js "dry-principle";
     name := js "Don't Repeat Yourself (DRY)";
     category := functions;
     description :=
       js "Duplication is the root of all evil in software. Every piece of knowledge must have a single, unambiguous, authoritative representation within a system. Duplicated code means duplicated bugs and duplicated maintenance effort.";
     tags := map js ["functions"; "dry"; "duplication"; "reuse"; "maintenance"] |};
  {| id := js "comments-do-not-make-up-for-bad-code";
     name := js "Comments Do Not Make Up for Bad Code";
     category := comments;
     description :=
       js "One of the most common motivations for writing comments is bad code. Rather than spending time writing a comment to explain messy code, spend it cleaning the code. Clear code with few comments is far superior to cluttered code with lots of comments.";
     tags := map js ["comments"; "bad-code"; "refactoring"; "readability"; "self-documenting"] |};
  {| id := js "explain-intent-with-comments";
     name := js "Use Comments to Explain Intent";
     category := comments;
     description :=
       js "Sometimes a comment is useful to explain why a decision was made, not what the code does. Comments that explain intent behind a decision provide value that the code cannot express on its own.";
     tags := map js ["comments"; "intent"; "why"; "decision"; "business-rules"] |};
  {| id := js "avoid-redundant-comments";
     name := js "Avoid Redundant Comments";
     category := comments;
     description :=
       js "A comment is redundant if it describes something that adequately describes itself. Comments that restate what the code already clearly says are noise and should be removed.";
     tags := map js ["comments"; "redundant"; "noise"; "clutter"; "readability"] |};
  {| id := js "avoid-commented-out-code";
     name := js "Don't Comment Out Code";
     category := comments;
     description :=
       js "Commented-out code festers and rots. It confuses other developers who are afraid to delete it. Version control remembers your code — delete it and retrieve it from history if needed.";
     tags := map js ["comments"; "dead-code"; "version-control"; "cleanup"] |};
  {| id := js "todo-comments";
     name := js "Use TODO Comments Sparingly";
     category := comments;
     description :=
       js "TODO comments are acceptable as a temporary reminder of work to be done, but they should not be an excuse to leave bad code in the system. Regularly scan for and address TODO comments.";
     tags := map js ["comments"; "todo"; "temporary"; "tracking"; "technical-debt"] |};
  {| id := js "vertical-openness";
     name := js "Vertical Openness Between Concepts";
     category := formatting;
     description :=
       js "Each blank line is a visual cue that identifies a new and separate concept. Blank lines separate the package declaration, imports, and each of the functions. This simple rule has a profound effect on readability.";
     tags := map js ["formatting"; "vertical"; "whitespace"; "blank-lines"; "readability"] |};
  {| id := js "vertical-density";
     name := js "Vertical Density for Related Code";
     category := formatting;
     description :=
       js "Lines of code that are tightly related should appear vertically close to each other. Closely related concepts should not be separated into different files unless there is a very strong reason.";
     tags := map js ["formatting"; "vertical"; "density"; "related-code"; "cohesion"] |};
  {| id := js "dependent-functions-close";
     name := js "Keep Dependent Functions Close";
     category := formatting;
     description :=
       js "If one function calls another, they should be vertically close in the source file, with the caller above the callee when possible. This gives the program a natural flow and enhances readability.";
     tags := map js ["formatting"; "vertical"; "ordering"; "caller-callee"; "flow"] |};
  {| id := js "horizontal-formatting";
     name := js "Keep Lines Short";
     category := formatting;
     description :=
       js "Lines should be short. The old Hollerith limit of 80 is a bit arbitrary, but lines beyond 120 characters are careless. Short lines are easier to read and understand.";
     tags := map js ["formatting"; "horizontal"; "line-length"; "readability"; "wrapping"] |};
  {| id := js "use-exceptions-not-return-codes";
     name := js "Use Exceptions, Not Return Codes";
     category := error_handling;
     description :=
       js "Using exceptions rather than return codes separates error handling from the main logic. The calling code is cleaner because it doesn't need to check for error codes after every call.";
     tags := map js ["error-handling"; "exceptions"; "return-codes"; "clarity"; "separation"] |};
  {| id := js "write-try-catch-first";
     name := js "Write Try-Catch-Finally First";
     category := error_handling;
     description :=
       js "When writing code that might throw exceptions, start with the try-catch-finally statement. This helps define what the caller can expect, regardless of what goes wrong in the try block.";
     tags := map js ["error-handling"; "try-catch"; "exceptions"; "structure"; "defensive"] |};
  {| id := js "provide-context-with-exceptions";
     name := js "Provide Context with Exceptions";
     category := error_handling;
     description :=
       js "Each exception should provide enough context to determine the source and location of an error. Create informative error messages that include the operation attempted and the type of failure.";
     tags := map js ["error-handling"; "context"; "messages"; "debugging"; "diagnostics"] |};
  {| id := js "dont-return-null";
     name := js "Don't Return Null";
     category := error_handling;
     description :=
       js "Returning null creates work for the caller and invites null-pointer errors. When tempted to return null, consider throwing an exception or returning a special case object instead.";
     tags := map js ["error-handling"; "null"; "null-checks"; "exceptions"; "special-case"] |};
  {| id := js "dont-pass-null";
     name := js "Don't Pass Null as Arguments";
     category := error_handling;
     description :=
       js "Passing null to a function is worse than returning null. Unless the API expects null, avoid passing it as it shifts the burden of null-checking to every function that receives parameters.";
     tags := map js ["error-handling"; "null"; "arguments"; "defensive"; "contracts"] |};
  {| id := js "one-assert-per-test";
     name := js "One Assert per Test";
     category := unit_testing;
     description :=
       js "If your project uses tests, they are easiest to understand when each test function contains a single assertion. Multiple assertions can obscure which concept is being tested. When a test fails, you immediately know what's broken.";
     tags := map js ["unit-testing"; "assertions"; "single-concept"; "clarity"; "debugging"] |};
  {| id := js "fast-tests";
     name := js "Tests Should Be Fast (F.I.R.S.T.)";
     category := unit_testing;
     description :=
       js "If your project uses tests, fast tests are run frequently. Slow tests are run infrequently. When tests run slow, you won't want to run them frequently, and you'll lose the ability to catch problems early. Aim for tests that run in milliseconds.";
     tags := map js ["unit-testing"; "fast"; "first"; "performance"; "frequency"] |};
  {| id := js "independent-tests";
     name := js "Tests Should Be Independent";
     category := unit_testing;
     description :=
       js "If your project uses tests, they should not depend on each other. One test should not set up the conditions for the next. You should be able to run each test independently and in any order.";
     tags := map js ["unit-testing"; "independent"; "isolation"; "first"; "coupling"] |};
  {| id := js "readable-tests";
     name := js "Tests Should Be Readable";
     category := unit_testing;
     description :=
       js "If your project uses tests, readability is perhaps even more important than in production code. Tests serve as documentation for how code should be used. Each test should tell a clear story: arrange, act, assert.";
     tags := map js ["unit-testing"; "readability"; "documentation"; "arrange-act-assert"; "naming"] |};
  {| id := js "test-boundary-conditions";
     name := js "Test Boundary Conditions";
     category := unit_testing;
     description :=
       js "Bugs often cluster at boundaries — empty arrays, zero values, null inputs, max limits. If your project uses tests, exercise boundary conditions explicitly. It's where most errors hide.";
     tags := map js ["unit-testing"; "boundaries"; "edge-cases"; "bugs"; "defensive"] |};
  {| id := js "classes-should-be-small";
     name := js "Classes Should Be Small";
     category := classes;
     description :=
       js "Classes should be small. With functions we measure size by counting physical lines. With classes we count responsibilities. A class name should describe its single responsibility — if it requires 'and' or 'or', it does too much.";
     tags := map js ["classes"; "small"; "responsibilities"; "srp"; "cohesion"] |};
  {| id := js "high-cohesion";
     name := js "Maintain High Cohesion";
     category := classes;
     description :=
       js "A class should have a small number of instance variables. Each method should manipulate one or more of those variables. The more variables a method manipulates, the more cohesive it is to its class.";
     tags := map js ["classes"; "cohesion"; "instance-variables"; "design"; "coupling"] |};
  {| id := js "organize-for-change";
     name := js "Organize Classes for Change";
     category := classes;
     description :=
       js "Classes should be organized so that change is easy. The Open/Closed Principle states that classes should be open for extension but closed for modification. When a new requirement arrives, it should require adding code, not changing existing code.";
     tags := map js ["classes"; "open-closed"; "change"; "extension"; "modification"] |};
  {| id := js "single-responsibility-principle";
     name := js "Single Responsibility Principle (SRP)";
     category := solid;
     description :=
       js "A class should have one, and only one, reason to change. If a class has more than one responsibility, those responsibilities become coupled. A change to one can impair or inhibit the class's ability to meet the others.";
     tags := map js ["solid"; "srp"; "single-responsibility"; "coupling"; "cohesion"] |};
  {| id := js "open-closed-principle";
     name := js "Open/Closed Principle (OCP)";
     category := solid;
     description :=
       js "Software entities should be open for extension but closed for modification. You should be able to add new behavior without changing existing code. This is typically achieved through abstractions and polymorphism.";
     tags := map js ["solid"; "ocp"; "open-closed"; "extension"; "polymorphism"] |};
  {| id := js "liskov-substitution-principle";
     name := js "Liskov Substitution Principle (LSP)";
     category := solid;
     description :=
       js "Objects of a superclass should be replaceable with objects of a subclass without breaking the application. Subtypes must be substitutable for their base types. Violating this leads to fragile code with instanceof checks.";
     tags := map js ["solid"; "lsp"; "liskov"; "substitution"; "inheritance"; "polymorphism"] |};
  {| id := js "interface-segregation-principle";
     name := js "Interface Segregation Principle (ISP)";
     category := solid;
     description :=
       js "Clients should not be forced to depend on interfaces they do not use. Fat interfaces should be split into smaller, more specific ones so that clients only need to know about the methods that are of interest to them.";
     tags := map js ["solid"; "isp"; "interface-segregation"; "fat-interface"; "decoupling"] |};
  {| id := js "dependency-inversion-principle";
     name := js "Dependency Inversion Principle (DIP)";
     category := solid;
     description :=
       js "High-level modules should not depend on low-level modules. Both should depend on abstractions. Abstractions should not depend on details. Details should depend on abstractions. This reduces coupling between modules.";
     tags := map js ["solid"; "dip"; "dependency-inversion"; "abstractions"; "decoupling"; "injection"] |};
  {| id := js "avoid-magic-numbers";
     name := js "Replace Magic Numbers with Named Constants";
     category := code_smells;
     description :=
       js "Magic numbers are raw numbers in source code with no explanation. They should be replaced with well-named constants. Named constants add context and make code easier to read and modify.";
     tags := map js ["code-smells"; "magic-numbers"; "constants"; "readability"; "maintenance"] |};
  {| id := js "avoid-dead-code";
     name := js "Remove Dead Code";
     category := code_smells;
     description :=
       js "Dead code — code that is never executed — is clutter. It confuses readers and wastes mental energy. Delete it. Version control systems remember it if you ever need it back.";
     tags := map js ["code-smells"; "dead-code"; "cleanup"; "clutter"; "version-control"] |};
  {| id := js "avoid-feature-envy";
     name := js "Avoid Feature Envy";
     category := code_smells;
     description :=
       js "A method that uses more features of another class than its own has feature envy. It should probably be moved to the class it envies. Methods should be close to the data they manipulate.";
     tags := map js ["code-smells"; "feature-envy"; "coupling"; "encapsulation"; "move-method"] |};
  {| id := js "avoid-long-parameter-lists";
     name := js "Avoid Long Parameter Lists";
     category := code_smells;
     description :=
       js "Functions with many parameters are hard to understand and error-prone. Group related parameters into objects. Long parameter lists are a sign that a function may be doing too much.";
     tags := map js ["code-smells"; "parameters"; "arguments"; "objects"; "readability"] |};
  {| id := js "avoid-inappropriate-intimacy";
     name := js "Avoid Inappropriate Intimacy";
     category := code_smells;
     description :=
       js "Classes that reach into the private parts of other classes are too intimate. Minimize what one class knows about the internals of another. Keep interactions at the interface level.";
     tags := map js ["code-smells"; "coupling"; "encapsulation"; "intimacy"; "information-hiding"] |};
  {| id := js "data-abstraction";
     name := js "Data Abstraction";
     category := objects_and_data_structures;
     description :=
       js "Hiding implementation is about abstractions, not just putting a layer of functions between variables. A class should expose abstract interfaces that allow users to manipulate the essence of the data without knowing its implementation.";
     tags := map js ["objects-and-data-structures"; "abstraction"; "encapsulation"; "interface"; "hiding"] |};
  {| id := js "law-of-demeter";
     name := js "Law of Demeter";
     category := objects_and_data_structures;
     description :=
       js "A method should only call methods on its own object, its parameters, objects it creates, and its direct components. " ++ [34] ++ js "Talk to friends, not to strangers." ++ [34] ++ js " Chains like a.getB().getC().doSomething() violate this law.";
     tags := map js ["objects-and-data-structures"; "demeter"; "coupling"; "train-wreck"; "encapsulation"] |};
  {| id := js "data-transfer-objects";
     name := js "Use Data Transfer Objects (DTOs)";
     category := objects_and_data_structures;
     description :=
       js "Data structures with public variables and no functions (DTOs) are useful for transferring data between layers. They are not objects — they have no behavior. Keep them pure data holders.";
     tags := map js ["objects-and-data-structures"; "dto"; "data-transfer"; "layers"; "serialization"] |};
  {| id := js "keep-concurrency-separate";
     name := js "Keep Concurrency Code Separate";
     category := concurrency;
     description :=
       js "Concurrency-related code has its own lifecycle of development, change, and tuning. Mixing it with other code adds complexity. Keep concurrency-related code separated from other code.";
     tags := map js ["concurrency"; "separation"; "async"; "parallel"; "complexity"] |};
  {| id := js "avoid-shared-mutable-state";
     name := js "Avoid Shared Mutable State";
     category := concurrency;
     description :=
       js "Shared mutable state is the root of most concurrency problems. Prefer immutable data, message passing, or isolated state. When sharing is necessary, use proper synchronization.";
     tags := map js ["concurrency"; "shared-state"; "mutable"; "immutable"; "race-condition"] |};
  {| id := js "separate-construction-from-use";
     name := js "Separate Construction from Use";
     category := systems;
     description :=
       js "The startup process of constructing objects and wiring dependencies is a separate concern from the runtime logic. Mixing construction with use creates tight coupling and makes the code harder to maintain and extend.";
     tags := map js ["systems"; "construction"; "dependency-injection"; "coupling"; "testing"] |};
  {| id := js "use-dependency-injection";
     name := js "Use Dependency Injection";
     category := systems;
     description :=
       js "Rather than having an object create its own dependencies, pass them in from outside. This separates construction from use, improves flexibility, and allows different implementations to be swapped in.";
     tags := map js ["systems"; "dependency-injection"; "di"; "testing"; "decoupling"] |};
  {| id := js "simple-design-runs-all-tests";
     name := js "Simple Design Rule 1: Runs All the Tests";
     category := emergence;
     description :=
       js "A system that can be verified is more reliable. Designing for verifiability pushes us toward small, single-purpose classes and loose coupling — which naturally leads to better design. If your project uses tests, they are a valuable tool for verification — but verifiability matters regardless.";
     tags := map js ["emergence"; "testing"; "verification"; "design"; "testability"] |};
  {| id := js "simple-design-no-duplication";
     name := js "Simple Design Rule 2: No Duplication";
     category := emergence;
     description :=
       js "Duplication is the primary enemy of a well-designed system. It represents additional work, additional risk, and additional unnecessary complexity. Eliminating duplication often leads to discovering new abstractions.";
     tags := map js ["emergence"; "duplication"; "dry"; "abstraction"; "refactoring"] |};
  {| id := js "simple-design-expressive";
     name := js "Simple Design Rule 3: Expressive";
     category := emergence;
     description :=
       js "Code should clearly express the intent of its author. The clearer code is, the less time others will spend understanding it. Use good names, keep functions and classes small, and use standard nomenclature (design patterns). When the project includes tests, ensure they are well-crafted and expressive too.";
     tags := map js ["emergence"; "expressiveness"; "readability"; "naming"; "clarity"] |};
  {| id := js "simple-design-minimal";
     name := js "Simple Design Rule 4: Minimal Classes and Methods";
     category := emergence;
     description :=
       js "Keep the overall count of classes and methods low. Too many tiny classes and methods can be as problematic as too few large ones. Be pragmatic — this rule has the lowest priority of the four simple design rules.";
     tags := map js ["emergence"; "minimal"; "pragmatism"; "over-engineering"; "simplicity"] |} ].

(** ** The two search tools *)

(** [ranked] in the handler of the [search-principle] tool
    (src/tools/search-principle.ts). *)
Definition searchPrinciple (query : jsstring) : list CleanCodePrinciple :=
  rankPrinciples PRINCIPLES
    (fun principle => scorePrincipleByQuery principle query).

(** [ranked] in the handler of the [search-by-context] tool. *)
Definition searchByContext (context : jsstring) : list CleanCodePrinciple :=
  let tokens := removeStopWords (tokenize context) in
  let categoryBoosts := detectCategoryBoosts tokens in
  rankPrinciples PRINCIPLES
    (fun principle => scorePrincipleByTokens principle tokens categoryBoosts).

(** ** src/data/principles.ts: the lookups *)

Definition findPrincipleById (id_ : jsstring) : option CleanCodePrinciple :=
  Js.find (fun principle => bool_decide (id principle = id_)) PRINCIPLES.

Definition filterByCategory (category_ : jsstring) : list CleanCodePrinciple :=
  List.filter
    (fun principle => bool_decide (categoryName (category principle) = category_))
    PRINCIPLES.

Definition getAllCategories : list jsstring :=
  let categories :=
    Js.setOf (map (fun principle => categoryName (category principle)) PRINCIPLES) in
  categories.

(** ** The result windows of the two search tools *)

(** [detailed] and [remaining] in the handler of [search-principle]:
    [MAX_DETAILED_RESULTS] is 3 and [MAX_TOTAL_RESULTS] is 10 there. *)
Definition searchPrinciple_detailed (query : jsstring)
    : list CleanCodePrinciple :=
  Js.slice (searchPrinciple query) 0 3.

Definition searchPrinciple_remaining (query : jsstring)
    : list CleanCodePrinciple :=
  Js.slice (searchPrinciple query) 3 10.

(** The same in the handler of [search-by-context], where
    [MAX_TOTAL_RESULTS] is 8. *)
Definition searchByContext_detailed (context : jsstring)
    : list CleanCodePrinciple :=
  Js.slice (searchByContext context) 0 3.

Definition searchByContext_remaining (context : jsstring)
    : list CleanCodePrinciple :=
  Js.slice (searchByContext context) 3 8.

(** ** src/prompts/code-review.ts *)

Definition DEFAULT_FOCUS_CATEGORIES : list jsstring :=
  map categoryName [naming; functions; error_handling; code_smells].

(** [raw] is [None] for [undefined]; the empty string is falsy as well.  The
    result holds categories as the strings they are at run time. *)
Definition parseFocusCategories (raw : option jsstring) : list jsstring :=
  match raw with
  | None => DEFAULT_FOCUS_CATEGORIES
  | Some [] => DEFAULT_FOCUS_CATEGORIES
  | Some raw =>
      let parsed :=
        List.filter isValidCategory (map Js.trim (Js.splitOn 44 raw)) in
      if (0 <? length parsed)%nat then parsed else DEFAULT_FOCUS_CATEGORIES
  end.

(** [relevantPrinciples] in the handler of the [clean-code-review] prompt. *)
Definition relevantPrinciples (focus_categories : option jsstring)
    : list CleanCodePrinciple :=
  let categories := parseFocusCategories focus_categories in
  List.filter
    (fun p => Js.arrayIncludes categories (categoryName (category p)))
    PRINCIPLES.

(** ** The formatter (src/formatters/principle-formatter.ts) *)

Definition truncateDescription (description : jsstring) (maxLength : nat)
    : jsstring :=
  if (length description <=? maxLength)%nat then description
  else Js.trimEnd (Js.slice description 0 maxLength) ++ js "...".

(** The [Map] is iterated by [formatCatalogGrouped], so it keeps its
    insertion order. *)
Definition groupByCategory (principles : list CleanCodePrinciple)
    : list (PrincipleCategory * list CleanCodePrinciple) :=
  fold_left
    (fun grouped principle =>
       let list := default [] (Js.mapGet grouped (category principle)) in
       let list := list ++ [principle] in
       Js.mapSet grouped (category principle) list)
    principles [].

(** * Vocabulary of the specification *)

Definition sumZ (l : list Z) : Z := foldr Z.add 0%Z l.

(** The query after [toLowerCase().trim()]. *)
Definition normalize (query : jsstring) : jsstring :=
  Js.trim (Js.toLowerCase query).

(** The contribution of one tag as the specification words it: 70 for a tag
    equal to the normalized query, else 50 when one of the two contains the
    other, else nothing. *)
Definition tagContribution (q tag : jsstring) : Z :=
  if decide (tag = q) then 70%Z
  else if Js.includes tag q || Js.includes q tag then 50%Z
  else 0%Z.

Definition nameContribution (P : CleanCodePrinciple) (q : jsstring) : Z :=
  if Js.includes (Js.toLowerCase (name P)) q then 80%Z else 0%Z.

Definition descriptionContribution (P : CleanCodePrinciple) (q : jsstring) : Z :=
  if Js.includes (Js.toLowerCase (description P)) q then 30%Z else 0%Z.

Definition categoryContribution (P : CleanCodePrinciple) (q : jsstring) : Z :=
  if Js.includes (categoryName (category P)) q then 20%Z else 0%Z.

(** A token as the specification describes the output of the tokenizer: a
    non-empty word over lowercase letters, digits and hyphens. *)
Definition isToken (t : jsstring) : Prop :=
  t <> [] /\ Forall (fun c => isTokenChar c = true) t.

(** Tokenizing followed by stop-word removal, and the re-assembly of a token
    list into one text, tokens separated by a single space. *)
Definition tokenizeAndFilter (text : jsstring) : list jsstring :=
  removeStopWords (tokenize text).

Definition reassemble (tokens : list jsstring) : jsstring :=
  Js.join (js " ") tokens.

(** The strings of Basic Latin and Latin-1 Supplement code units.  On them
    lowercasing is free of context and maps one code unit to one code unit,
    and [Js.toLowerCase] is the host's function. *)
Definition latin1 (s : jsstring) : Prop := Forall (fun c => c < 256) s.

(** Settles the comparisons of a code unit with constants once its range is
    known. *)
Ltac decide_comparisons :=
  repeat match goal with
         | |- context [N.leb ?a ?b] => destruct (N.leb_spec a b); try lia
         | |- context [N.eqb ?a ?b] => destruct (N.eqb_spec a b); try lia
         end.

(** * Properties *)

(** ** The scorer, branch by branch *)

Lemma fold_left_add_sumZ {A : Type} (f : A -> Z) (l : list A) (a : Z) :
  fold_left (fun acc x => (acc + f x)%Z) l a = (a + sumZ (map f l))%Z.
Proof.
  revert a. induction l as [|x l IH]; intros a; simpl.
  - lia.
  - rewrite IH. lia.
Qed.

Lemma sumZ_app (l1 l2 : list Z) : sumZ (l1 ++ l2) = (sumZ l1 + sumZ l2)%Z.
Proof. induction l1 as [|x l1 IH]; simpl; [reflexivity | rewrite IH; lia]. Qed.

Lemma startsWith_refl (s : jsstring) : Js.startsWith s s = true.
Proof. induction s as [|c s IH]; simpl; [reflexivity|]. by rewrite N.eqb_refl. Qed.

Lemma includes_refl (s : jsstring) : Js.includes s s = true.
Proof. destruct s; simpl; [reflexivity|]. by rewrite N.eqb_refl, startsWith_refl. Qed.

Lemma startsWith_nil (s : jsstring) : Js.startsWith s [] = true.
Proof. by destruct s. Qed.

Lemma includes_nil (s : jsstring) : Js.includes s [] = true.
Proof. destruct s; reflexivity. Qed.

Lemma tag_loop_sum (q : jsstring) (l : list jsstring) (score : Z) :
  fold_left
    (fun score tag =>
       if decide (tag = q) then (score + SCORE_WEIGHTS.TAG_EXACT)%Z
       else if Js.includes tag q || Js.includes q tag
       then (score + SCORE_WEIGHTS.TAG_PARTIAL)%Z
       else score)
    l score
  = (score + sumZ (map (tagContribution q) l))%Z.
Proof.
  revert score. induction l as [|tag l IH]; intros score; simpl.
  - lia.
  - rewrite IH. unfold tagContribution, SCORE_WEIGHTS.TAG_EXACT,
      SCORE_WEIGHTS.TAG_PARTIAL.
    destruct (decide (tag = q)); [lia|].
    destruct (Js.includes tag q || Js.includes q tag); lia.
Qed.

Lemma scorePrincipleByQuery_id (P : CleanCodePrinciple) (Q : jsstring) :
  id P = normalize Q -> scorePrincipleByQuery P Q = 100%Z.
Proof.
  intros H. unfold scorePrincipleByQuery. fold (normalize Q).
  destruct (decide (id P = normalize Q)); [reflexivity | contradiction].
Qed.

Lemma scorePrincipleByQuery_other (P : CleanCodePrinciple) (Q : jsstring) :
  id P <> normalize Q ->
  scorePrincipleByQuery P Q
  = (nameContribution P (normalize Q)
     + sumZ (map (tagContribution (normalize Q)) (tags P))
     + descriptionContribution P (normalize Q)
     + categoryContribution P (normalize Q))%Z.
Proof.
  intros H. unfold scorePrincipleByQuery. fold (normalize Q).
  destruct (decide (id P = normalize Q)); [contradiction|].
  rewrite tag_loop_sum.
  unfold nameContribution, descriptionContribution, categoryContribution,
    SCORE_WEIGHTS.NAME_CONTAINS, SCORE_WEIGHTS.DESCRIPTION_CONTAINS,
    SCORE_WEIGHTS.CATEGORY_MATCH.
  destruct (Js.includes (Js.toLowerCase (name P)) (normalize Q));
    destruct (Js.includes (Js.toLowerCase (description P)) (normalize Q));
    destruct (Js.includes (categoryName (category P)) (normalize Q)); lia.
Qed.

Lemma scorePrincipleByTokens_sum (P : CleanCodePrinciple)
    (T : list jsstring) (B : gmap BoostKey Z) :
  scorePrincipleByTokens P T B
  = (sumZ (map (scorePrincipleByQuery P) T)
     + 15 * default 0%Z (B !! Category (category P)))%Z.
Proof.
  unfold scorePrincipleByTokens, CATEGORY_BOOST_MULTIPLIER.
  rewrite fold_left_add_sumZ. lia.
Qed.

(** Every id of the corpus is already lowercase and trimmed. *)
Lemma corpus_ids_normal :
  Forall (fun P => normalize (id P) = id P) PRINCIPLES.
Proof. apply (bool_decide_unpack _). vm_compute. reflexivity. Qed.

Lemma tagContribution_nonneg (q tag : jsstring) : (0 <= tagContribution q tag)%Z.
Proof.
  unfold tagContribution. destruct (decide (tag = q)); [lia|].
  destruct (Js.includes tag q || Js.includes q tag); lia.
Qed.

Lemma tag_sum_nonneg (q : jsstring) (l : list jsstring) :
  (0 <= sumZ (map (tagContribution q) l))%Z.
Proof.
  induction l as [|tag l IH]; cbn [map sumZ foldr]; [lia|].
  fold (sumZ (map (tagContribution q) l)).
  pose proof (tagContribution_nonneg q tag). lia.
Qed.

(** A query found in the category string is worth at least the category
    weight, whichever branch is taken. *)
Lemma scorePrincipleByQuery_category_hit (P : CleanCodePrinciple) (Q : jsstring) :
  Js.includes (categoryName (category P)) (normalize Q) = true ->
  (20 <= scorePrincipleByQuery P Q)%Z.
Proof.
  intros Hc. destruct (decide (id P = normalize Q)) as [Hid|Hid].
  - rewrite scorePrincipleByQuery_id by exact Hid. lia.
  - rewrite scorePrincipleByQuery_other by exact Hid.
    pose proof (tag_sum_nonneg (normalize Q) (tags P)).
    unfold nameContribution, descriptionContribution, categoryContribution.
    rewrite Hc.
    destruct (Js.includes (Js.toLowerCase (name P)) (normalize Q));
      destruct (Js.includes (Js.toLowerCase (description P)) (normalize Q)); lia.
Qed.

(** ** The host's stable sort under a comparator that subtracts keys *)

Section SortByKey.
Context {A : Type} (key : A -> Z).

Local Abbreviation cmp := (fun a b : A => (key b - key a)%Z).
Local Abbreviation desc := (fun a b : A => (key a >= key b)%Z).

Lemma insert_sorted_perm (x : A) (l : list A) :
  Js.insert_sorted cmp x l ≡ₚ x :: l.
Proof.
  induction l as [|y l IH]; simpl; [reflexivity|].
  destruct (key y - key x <=? 0)%Z; [reflexivity|].
  rewrite IH. apply perm_swap.
Qed.

Lemma sort_perm (l : list A) : Js.sort cmp l ≡ₚ l.
Proof.
  induction l as [|x l IH]; simpl; [reflexivity|].
  rewrite insert_sorted_perm. by rewrite IH.
Qed.

Lemma insert_sorted_desc (x : A) (l : list A) :
  StronglySorted desc l -> StronglySorted desc (Js.insert_sorted cmp x l).
Proof.
  induction 1 as [|y l Hs IH Hy]; simpl.
  - repeat constructor.
  - destruct (Z.leb_spec (key y - key x) 0) as [Hle|Hgt].
    + constructor; [by constructor|].
      constructor; [lia|].
      eapply Forall_impl; [exact Hy|]. simpl. intros z Hz. lia.
    + constructor; [exact IH|].
      rewrite insert_sorted_perm. constructor; [lia | exact Hy].
Qed.

Lemma sort_desc (l : list A) : StronglySorted desc (Js.sort cmp l).
Proof.
  induction l as [|x l IH]; simpl; [constructor|].
  by apply insert_sorted_desc.
Qed.

(** Stability: the elements of any one key keep their order. *)
Lemma insert_sorted_stable (k : Z) (x : A) (l : list A) :
  List.filter (fun a => (key a =? k)%Z) (Js.insert_sorted cmp x l)
  = List.filter (fun a => (key a =? k)%Z) (x :: l).
Proof.
  induction l as [|y l IH]; [reflexivity|].
  cbn [Js.insert_sorted].
  destruct (Z.leb_spec (key y - key x) 0) as [Hle|Hgt]; [reflexivity|].
  cbn [List.filter] in *. rewrite IH.
  destruct (Z.eqb_spec (key x) k), (Z.eqb_spec (key y) k);
    try reflexivity; lia.
Qed.

Lemma sort_stable (k : Z) (l : list A) :
  List.filter (fun a => (key a =? k)%Z) (Js.sort cmp l)
  = List.filter (fun a => (key a =? k)%Z) l.
Proof.
  induction l as [|x l IH]; [reflexivity|].
  cbn [Js.sort foldr]. rewrite insert_sorted_stable.
  cbn [List.filter]. fold (Js.sort cmp l). by rewrite IH.
Qed.

End SortByKey.

Lemma sorted_adjacent {A : Type} (R : A -> A -> Prop) (l : list A) :
  StronglySorted R l ->
  forall (i : nat) (a b : A), l !! i = Some a -> l !! S i = Some b -> R a b.
Proof.
  induction 1 as [|x l Hs IH Hx]; intros i a b Ha Hb; [discriminate|].
  destruct i as [|i]; simpl in *.
  - inversion Ha; subst a.
    rewrite Forall_forall in Hx. apply Hx.
    eapply list_elem_of_lookup_2. exact Hb.
  - eapply IH; eassumption.
Qed.

(** ** The ranker *)

Section Rank.
Context {T : Type} (scoreFn : T -> Z).

Local Abbreviation entry := (fun principle : T => (principle, scoreFn principle)).

Lemma filter_entries (l : list T) :
  List.filter (fun e : T * Z => (0 <? snd e)%Z) (map entry l)
  = map entry (List.filter (fun p => (0 <? scoreFn p)%Z) l).
Proof.
  induction l as [|p l IH]; simpl; [reflexivity|].
  destruct (0 <? scoreFn p)%Z; simpl; by rewrite IH.
Qed.

Lemma insert_entries (p : T) (l : list T) :
  Js.insert_sorted (fun a b : T * Z => (snd b - snd a)%Z) (entry p) (map entry l)
  = map entry (Js.insert_sorted (fun a b => (scoreFn b - scoreFn a)%Z) p l).
Proof.
  induction l as [|q l IH]; simpl; [reflexivity|].
  destruct (scoreFn q - scoreFn p <=? 0)%Z; simpl; [reflexivity|].
  by rewrite IH.
Qed.

Lemma sort_entries (l : list T) :
  Js.sort (fun a b : T * Z => (snd b - snd a)%Z) (map entry l)
  = map entry (Js.sort (fun a b => (scoreFn b - scoreFn a)%Z) l).
Proof.
  induction l as [|p l IH]; simpl; [reflexivity|].
  fold (Js.sort (fun a b : T * Z => (snd b - snd a)%Z) (map entry l)).
  rewrite IH. apply insert_entries.
Qed.

(** The pairing with the score and its removal cancel out: ranking is the
    stable sort, by decreasing score, of the entries of positive score. *)
Lemma rankPrinciples_sort (principles : list T) :
  rankPrinciples principles scoreFn
  = Js.sort (fun a b => (scoreFn b - scoreFn a)%Z)
      (List.filter (fun p => (0 <? scoreFn p)%Z) principles).
Proof.
  unfold rankPrinciples. rewrite filter_entries, sort_entries.
  rewrite map_map. simpl. apply map_id.
Qed.

Lemma rankPrinciples_nonpositive (principles : list T) :
  Forall (fun p => (scoreFn p <= 0)%Z) principles ->
  rankPrinciples principles scoreFn = [].
Proof.
  intros H. rewrite rankPrinciples_sort.
  replace (List.filter (fun p => (0 <? scoreFn p)%Z) principles) with (@nil T);
    [reflexivity|].
  induction H as [|p l Hp Hl IH]; simpl; [reflexivity|].
  destruct (Z.ltb_spec 0 (scoreFn p)); [lia | exact IH].
Qed.

Lemma rankPrinciples_all_positive (principles : list T) :
  Forall (fun p => (0 < scoreFn p)%Z) principles ->
  rankPrinciples principles scoreFn
  = Js.sort (fun a b => (scoreFn b - scoreFn a)%Z) principles.
Proof.
  intros H. rewrite rankPrinciples_sort. f_equal.
  induction H as [|p l Hp Hl IH]; simpl; [reflexivity|].
  destruct (Z.ltb_spec 0 (scoreFn p)); [by rewrite IH | lia].
Qed.

End Rank.

(** ** The tokenizer *)

Lemma isTokenChar_cases (c : N) :
  isTokenChar c = true -> 97 <= c <= 122 \/ 48 <= c <= 57 \/ c = 45.
Proof.
  unfold isTokenChar. intros Htc.
  destruct (N.leb_spec 97 c), (N.leb_spec c 122), (N.leb_spec 48 c),
    (N.leb_spec c 57), (N.eqb_spec c 45); simpl in Htc;
    try discriminate; lia.
Qed.

Lemma tokenChar_not_white (c : N) :
  isTokenChar c = true -> Js.isWhiteSpace c = false.
Proof.
  intros H. apply isTokenChar_cases in H. unfold Js.isWhiteSpace.
  destruct H as [H|[H|H]]; decide_comparisons; reflexivity.
Qed.

Lemma tokenChar_lower (c : N) : isTokenChar c = true -> Js.lowerUnit c = c.
Proof.
  intros H. apply isTokenChar_cases in H. unfold Js.lowerUnit.
  destruct H as [H|[H|H]]; decide_comparisons; reflexivity.
Qed.

Section Scanners.
Local Abbreviation nonToken := (fun c : N => negb (isTokenChar c)).
Local Abbreviation white := Js.isWhiteSpace.
Local Abbreviation sp := (32 :: @nil N).

Lemma replace_word (t rest : jsstring) :
  Forall (fun c => isTokenChar c = true) t ->
  Js.replaceRuns_go nonToken sp false (t ++ rest)
  = t ++ Js.replaceRuns_go nonToken sp false rest.
Proof.
  induction 1 as [|c t Hc Ht IH]; simpl; [reflexivity|].
  rewrite Hc. simpl. by rewrite IH.
Qed.

Lemma replace_token (b : bool) (t rest : jsstring) :
  isToken t ->
  Js.replaceRuns_go nonToken sp b (t ++ rest)
  = t ++ Js.replaceRuns_go nonToken sp false rest.
Proof.
  intros [Hne Ht]. destruct t as [|c t]; [done|].
  inversion Ht as [|? ? Hc Ht']; subst. simpl. rewrite Hc. simpl.
  by rewrite replace_word.
Qed.

Lemma replace_join (toks : list jsstring) :
  Forall isToken toks ->
  forall b, Js.replaceRuns_go nonToken sp b (Js.join sp toks) = Js.join sp toks.
Proof.
  induction 1 as [|t toks Ht Htoks IH]; intros b; [reflexivity|].
  destruct toks as [|t2 toks].
  - simpl. rewrite <- (app_nil_r t) at 1. rewrite replace_token by done.
    simpl. apply app_nil_r.
  - change (Js.join sp (t :: t2 :: toks))
      with (t ++ 32 :: Js.join sp (t2 :: toks)).
    rewrite replace_token by done. f_equal.
    cbn [Js.replaceRuns_go]. change (nonToken 32) with true. cbv iota.
    simpl app. f_equal. apply IH.
Qed.

Lemma split_word (t rest cur : jsstring) :
  Forall (fun c => isTokenChar c = true) t ->
  Js.splitRuns_go white false cur (t ++ rest)
  = Js.splitRuns_go white false (rev t ++ cur) rest.
Proof.
  intros Ht. revert cur.
  induction Ht as [|c t Hc Ht IH]; intros cur; simpl; [reflexivity|].
  rewrite (tokenChar_not_white c Hc). rewrite IH.
  by rewrite <- app_assoc.
Qed.

Lemma split_token (b : bool) (t rest : jsstring) :
  isToken t ->
  Js.splitRuns_go white b [] (t ++ rest)
  = Js.splitRuns_go white false (rev t) rest.
Proof.
  intros [Hne Ht]. destruct t as [|c t]; [done|].
  inversion Ht as [|? ? Hc Ht']; subst. simpl.
  rewrite (tokenChar_not_white c Hc). by rewrite split_word.
Qed.

Lemma split_join (toks : list jsstring) :
  Forall isToken toks -> toks <> [] ->
  forall b, Js.splitRuns_go white b [] (Js.join sp toks) = toks.
Proof.
  induction 1 as [|t toks Ht Htoks IH]; intros Hne b; [done|].
  destruct toks as [|t2 toks].
  - simpl. rewrite <- (app_nil_r t) at 1. rewrite split_token by done.
    simpl. by rewrite rev_involutive.
  - change (Js.join sp (t :: t2 :: toks))
      with (t ++ 32 :: Js.join sp (t2 :: toks)).
    rewrite split_token by done.
    cbn [Js.splitRuns_go]. change (white 32) with true. cbv iota.
    rewrite rev_involutive. f_equal. by apply IH.
Qed.

Lemma join_Forall (P : N -> Prop) (toks : list jsstring) :
  P 32 -> Forall (Forall P) toks -> Forall P (Js.join sp toks).
Proof.
  intros Hsp. induction 1 as [|t toks Ht Htoks IH]; [constructor|].
  destruct toks as [|t2 toks]; [exact Ht|].
  change (Js.join sp (t :: t2 :: toks))
    with (t ++ 32 :: Js.join sp (t2 :: toks)).
  apply Forall_app; split; [exact Ht|]. by constructor.
Qed.

Lemma toLowerCase_fixed (s : jsstring) :
  Forall (fun c => Js.lowerUnit c = c) s -> Js.toLowerCase s = s.
Proof.
  unfold Js.toLowerCase.
  induction 1 as [|c s Hc Hs IH]; simpl; [reflexivity|]. by rewrite Hc, IH.
Qed.

Lemma toLowerCase_token (t : jsstring) : isToken t -> Js.toLowerCase t = t.
Proof.
  intros [_ Ht]. apply toLowerCase_fixed.
  eapply Forall_impl; [exact Ht|]. apply tokenChar_lower.
Qed.

Lemma toLowerCase_join (toks : list jsstring) :
  Forall isToken toks -> Js.toLowerCase (Js.join sp toks) = Js.join sp toks.
Proof.
  intros H. apply toLowerCase_fixed. apply join_Forall; [reflexivity|].
  eapply Forall_impl; [exact H|]. intros t [_ Ht].
  eapply Forall_impl; [exact Ht|]. apply tokenChar_lower.
Qed.

(** What the two scanners let through. *)
Lemma replace_chars (b : bool) (s : jsstring) :
  Forall (fun c => isTokenChar c = true \/ c = 32)
    (Js.replaceRuns_go nonToken sp b s).
Proof.
  revert b. induction s as [|c s IH]; intros b; simpl; [constructor|].
  destruct (isTokenChar c) eqn:Hc; simpl.
  - constructor; [by left | apply IH].
  - destruct b; [apply IH|]. constructor; [by right | apply IH].
Qed.

Lemma split_pieces (P : N -> Prop) (s : jsstring) :
  Forall P s ->
  forall b cur,
    Forall (fun c => P c /\ white c = false) cur ->
    Forall (Forall (fun c => P c /\ white c = false))
      (Js.splitRuns_go white b cur s).
Proof.
  induction 1 as [|c s Hc Hs IH]; intros b cur Hcur; simpl.
  - constructor; [|constructor]. by apply Forall_rev.
  - destruct (white c) eqn:Hw.
    + destruct b; [by apply IH|].
      constructor; [by apply Forall_rev|]. apply IH. constructor.
    + apply IH. by constructor.
Qed.

End Scanners.

Lemma filter_Forall {A : Type} (p : A -> bool) (P : A -> Prop) (l : list A) :
  Forall P l -> Forall (fun x => P x /\ p x = true) (List.filter p l).
Proof.
  induction 1 as [|x l Hx Hl IH]; simpl; [constructor|].
  destruct (p x) eqn:Hp; [by constructor | exact IH].
Qed.

Lemma filter_all {A : Type} (p : A -> bool) (l : list A) :
  Forall (fun x => p x = true) l -> List.filter p l = l.
Proof.
  induction 1 as [|x l Hx Hl IH]; simpl; [reflexivity|]. by rewrite Hx, IH.
Qed.

Lemma filter_idem {A : Type} (p : A -> bool) (l : list A) :
  List.filter p (List.filter p l) = List.filter p l.
Proof.
  apply filter_all. eapply Forall_impl; [apply (filter_Forall p (fun _ => True))|].
  - by apply Forall_true.
  - by intros x [_ H].
Qed.

(** Every piece that [tokenize] keeps is a token of more than one code unit. *)
Lemma tokenize_tokens (text : jsstring) :
  Forall (fun t => isToken t /\ (1 < length t)%nat) (tokenize text).
Proof.
  unfold tokenize.
  eapply Forall_impl; [apply filter_Forall|].
  - apply (split_pieces (fun c => isTokenChar c = true \/ c = 32));
      [apply replace_chars | constructor].
  - simpl. intros t [Ht Hlen]. apply Nat.ltb_lt in Hlen. split; [split|]; [| |lia].
    + intros ->. simpl in Hlen. lia.
    + eapply Forall_impl; [exact Ht|]. simpl. intros c [[Hc| ->] Hw]; [done|].
      discriminate.
Qed.

(** A list of such tokens, written out with single spaces, tokenizes back
    to itself. *)
Lemma tokenize_join (toks : list jsstring) :
  Forall (fun t => isToken t /\ (1 < length t)%nat) toks ->
  tokenize (reassemble toks) = toks.
Proof.
  intros H. destruct toks as [|t toks]; [reflexivity|].
  assert (Htok : Forall isToken (t :: toks)).
  { eapply Forall_impl; [exact H|]. by intros ? []. }
  unfold tokenize, reassemble. change (js " ") with (32 :: @nil N).
  rewrite toLowerCase_join by done.
  unfold Js.replaceRuns. rewrite replace_join by done.
  unfold Js.splitRuns. rewrite split_join by done.
  apply filter_all. eapply Forall_impl; [exact H|].
  simpl. intros ? [_ Hlen]. by apply Nat.ltb_lt.
Qed.

(** ** Category boosts *)

Section Boosts.

Local Abbreviation step :=
  (fun (boosts : gmap BoostKey Z) (token : jsstring) =>
     match keywordLookup token with
     | Some category =>
         let current := default 0%Z (boosts !! category) in
         <[category := (current + 1)%Z]> boosts
     | None => boosts
     end).

(** Two iterations of the loop body can be exchanged. *)
Lemma boost_step_comm (boosts : gmap BoostKey Z) (a b : jsstring) :
  step (step boosts a) b = step (step boosts b) a.
Proof.
  cbv beta.
  generalize (keywordLookup a) (keywordLookup b).
  intros [ka|] [kb|]; cbv beta iota zeta; try reflexivity.
  destruct (decide (ka = kb)) as [->|Hne]; [reflexivity|].
  rewrite (lookup_insert_ne boosts ka kb) by exact Hne.
  rewrite (lookup_insert_ne boosts kb ka) by (intros E; apply Hne; symmetry; exact E).
  apply insert_insert_ne. intros E. apply Hne. symmetry. exact E.
Qed.

Lemma boost_loop_perm (l1 l2 : list jsstring) :
  l1 ≡ₚ l2 ->
  forall boosts, fold_left step l1 boosts = fold_left step l2 boosts.
Proof.
  induction 1 as [|x l1 l2 Hp IH|x y l|l1 l2 l3 H1 IH1 H2 IH2]; intros boosts.
  - reflexivity.
  - cbn [fold_left]. apply IH.
  - cbn [fold_left]. f_equal. apply boost_step_comm.
  - by rewrite IH1.
Qed.

Lemma detectCategoryBoosts_perm (l1 l2 : list jsstring) :
  l1 ≡ₚ l2 -> detectCategoryBoosts l1 = detectCategoryBoosts l2.
Proof. intros H. unfold detectCategoryBoosts. by apply boost_loop_perm. Qed.

End Boosts.

(** ** Facts about the corpus, by evaluation *)

(** The literals of the corpus are decoded as the host reads them: the dash
    of the descriptions is the single code unit U+2014. *)
Lemma utf16_samples :
  js "a-Z" = [97; 45; 90] /\ js "—" = [8212] /\ js "é" = [233].
Proof. repeat split; reflexivity. Qed.

Lemma normalize_empty : normalize (js "") = [].
Proof. reflexivity. Qed.

(** With the empty query the id branch is skipped and every other branch
    fires: 80 + 30 + 20 and 50 for each tag. *)
Lemma corpus_empty_query :
  Forall
    (fun P =>
       id P <> []
       /\ scorePrincipleByQuery P (js "")
          = (130 + 50 * Z.of_nat (length (tags P)))%Z)
    PRINCIPLES.
Proof. apply (bool_decide_unpack _). vm_compute. reflexivity. Qed.

Lemma corpus_empty_query_positive :
  Forall (fun P => (0 < scorePrincipleByQuery P (js ""))%Z) PRINCIPLES.
Proof.
  eapply Forall_impl; [apply corpus_empty_query|].
  cbv beta. intros P [_ ->]. lia.
Qed.

Lemma searchPrinciple_empty_perm : searchPrinciple (js "") ≡ₚ PRINCIPLES.
Proof.
  unfold searchPrinciple.
  rewrite rankPrinciples_all_positive by apply corpus_empty_query_positive.
  apply sort_perm.
Qed.

Lemma boosts_of_nil : detectCategoryBoosts [] = ∅.
Proof. reflexivity. Qed.

Lemma scorePrincipleByTokens_nil (P : CleanCodePrinciple) :
  scorePrincipleByTokens P [] ∅ = 0%Z.
Proof. reflexivity. Qed.

Lemma searchByContext_no_tokens (context : jsstring) :
  tokenizeAndFilter context = [] -> searchByContext context = [].
Proof.
  unfold tokenizeAndFilter, searchByContext. intros ->. cbv zeta.
  apply rankPrinciples_nonpositive. apply Forall_true. intros P.
  rewrite boosts_of_nil, scorePrincipleByTokens_nil. lia.
Qed.

(** * The claims of the specification *)

(** C1. A principle whose id equals the lowercased and trimmed query scores
    exactly 100 whatever its name, tags, description and category are: the
    scorer returns at once and adds nothing else.  In particular every
    principle of the corpus scores 100 against its own id. *)
Theorem exact_id_match_scores_100 :
  (forall (P : CleanCodePrinciple) (Q : jsstring),
      id P = Js.trim (Js.toLowerCase Q) ->
      scorePrincipleByQuery P Q = SCORE_WEIGHTS.EXACT_ID_MATCH
      /\ scorePrincipleByQuery P Q = 100%Z)
  /\ (forall P : CleanCodePrinciple,
         P ∈ PRINCIPLES -> scorePrincipleByQuery P (id P) = 100%Z).
Proof.
  split.
  - intros P Q H. split; by apply scorePrincipleByQuery_id.
  - intros P HP. apply scorePrincipleByQuery_id.
    pose proof corpus_ids_normal as Hn. rewrite Forall_forall in Hn.
    symmetry. by apply Hn.
Qed.

Lemma exact_id_match_scores_100_witness :
  scorePrincipleByQuery
    {| id := js "keep-functions-small";
       name := js "Keep Functions Small";
       category := functions;
       description := js "Functions should be small.";
       tags := map js ["functions"; "small"; "keep-functions-small"] |}
    (js "  Keep-Functions-SMALL ")
  = 100%Z.
Proof.
  apply (proj1 exact_id_match_scores_100
           {| id := js "keep-functions-small";
              name := js "Keep Functions Small";
              category := functions;
              description := js "Functions should be small.";
              tags := map js ["functions"; "small"; "keep-functions-small"] |}
           (js "  Keep-Functions-SMALL ")).
  vm_compute. reflexivity.
Defined.

(** C2. When the id does not match, the score is the sum of the name,
    description and category contributions and of one contribution per tag:
    70 for a tag equal to the normalized query (the containment test holds
    for it as well, but adds nothing), else 50 when the tag contains the
    query or the query contains the tag, else 0.  Appending a tag to a
    principle therefore changes its score by exactly that contribution. *)
Theorem tag_contributes_once (P : CleanCodePrinciple) (Q : jsstring) :
  id P <> Js.trim (Js.toLowerCase Q) ->
  let q := Js.trim (Js.toLowerCase Q) in
  scorePrincipleByQuery P Q
  = (nameContribution P q + sumZ (map (tagContribution q) (tags P))
     + descriptionContribution P q + categoryContribution P q)%Z
  /\ (forall tag : jsstring,
         scorePrincipleByQuery
           {| id := id P; name := name P; category := category P;
              description := description P; tags := tags P ++ [tag] |} Q
         = (scorePrincipleByQuery P Q + tagContribution q tag)%Z)
  /\ (forall tag : jsstring,
         (tag = q ->
          Js.includes tag q || Js.includes q tag = true
          /\ tagContribution q tag = 70%Z)
         /\ (tag <> q -> Js.includes tag q || Js.includes q tag = true ->
             tagContribution q tag = 50%Z)
         /\ (tag <> q -> Js.includes tag q || Js.includes q tag = false ->
             tagContribution q tag = 0%Z)).
Proof.
  intros Hid q. split; [|split].
  - by apply scorePrincipleByQuery_other.
  - intros tag. rewrite !scorePrincipleByQuery_other by exact Hid.
    fold (normalize Q). cbn [tags]. rewrite map_app, sumZ_app.
    unfold nameContribution, descriptionContribution, categoryContribution.
    cbn [name description category map sumZ foldr]. subst q.
    fold (normalize Q). lia.
  - intros tag. unfold tagContribution. split; [|split].
    + intros ->. split; [by rewrite includes_refl|].
      by destruct (decide (q = q)).
    + intros Hne Hinc. destruct (decide (tag = q)); [done|]. by rewrite Hinc.
    + intros Hne Hinc. destruct (decide (tag = q)); [done|]. by rewrite Hinc.
Qed.

Lemma tag_contributes_once_witness :
  id {| id := js "single-responsibility-principle";
        name := js "Single Responsibility Principle";
        category := solid;
        description := js "A class should have one reason to change.";
        tags := map js ["srp"; "srp-violation"; "sr"; "cohesion"] |}
  <> Js.trim (Js.toLowerCase (js " SRP "))
  /\ scorePrincipleByQuery
       {| id := js "single-responsibility-principle";
          name := js "Single Responsibility Principle";
          category := solid;
          description := js "A class should have one reason to change.";
          tags := map js ["srp"; "srp-violation"; "sr"; "cohesion"] |}
       (js " SRP ")
     = (70 + 50 + 50 + 0)%Z.
Proof.
  assert (H : id {| id := js "single-responsibility-principle";
                    name := js "Single Responsibility Principle";
                    category := solid;
                    description := js "A class should have one reason to change.";
                    tags := map js ["srp"; "srp-violation"; "sr"; "cohesion"] |}
              <> Js.trim (Js.toLowerCase (js " SRP "))).
  { vm_compute. discriminate. }
  split; [exact H|].
  etransitivity; [exact (proj1 (tag_contributes_once _ _ H))|].
  vm_compute. reflexivity.
Defined.

(** C3. The ranker returns exactly the principles of strictly positive
    score (as a multiset, hence none of non-positive score), in order of
    decreasing score; adjacent results never increase in score; and the
    results of any one score come in the order they have in the input. *)
Theorem rankPrinciples_positive_sorted_stable
    {T : Type} (principles : list T) (scoreFn : T -> Z) :
  let ranked := rankPrinciples principles scoreFn in
  ranked ≡ₚ List.filter (fun p => (0 <? scoreFn p)%Z) principles
  /\ (forall p : T, p ∈ ranked <-> p ∈ principles /\ (0 < scoreFn p)%Z)
  /\ Forall (fun p => (0 < scoreFn p)%Z) ranked
  /\ StronglySorted (fun a b => (scoreFn a >= scoreFn b)%Z) ranked
  /\ (forall (i : nat) (a b : T),
         ranked !! i = Some a -> ranked !! S i = Some b ->
         (scoreFn a >= scoreFn b)%Z)
  /\ (forall s : Z,
         List.filter (fun p => (scoreFn p =? s)%Z) ranked
         = List.filter (fun p => (scoreFn p =? s)%Z)
             (List.filter (fun p => (0 <? scoreFn p)%Z) principles)).
Proof.
  intros ranked.
  assert (Hperm : ranked ≡ₚ List.filter (fun p => (0 <? scoreFn p)%Z) principles).
  { subst ranked. rewrite rankPrinciples_sort. apply sort_perm. }
  assert (Hmem : forall p : T,
             p ∈ ranked <-> p ∈ principles /\ (0 < scoreFn p)%Z).
  { intros p. rewrite Hperm, !list_elem_of_In, filter_In, Z.ltb_lt. tauto. }
  assert (Hsorted : StronglySorted (fun a b => (scoreFn a >= scoreFn b)%Z) ranked).
  { subst ranked. rewrite rankPrinciples_sort.
    apply (sort_desc scoreFn). }
  split; [exact Hperm|]. split; [exact Hmem|].
  split; [|split; [exact Hsorted|split]].
  - rewrite Forall_forall. intros p Hp. by apply Hmem.
  - intros i a b. apply (sorted_adjacent _ _ Hsorted).
  - intros s. subst ranked. rewrite rankPrinciples_sort.
    apply (sort_stable scoreFn).
Qed.

Lemma rankPrinciples_positive_sorted_stable_witness :
  rankPrinciples [(1, 3%Z); (2, 0%Z); (3, 5%Z); (4, 3%Z); (5, (-1)%Z); (6, 5%Z)] snd
  = [(3, 5%Z); (6, 5%Z); (1, 3%Z); (4, 3%Z)]
  /\ (snd (6, 5%Z) >= snd (1, 3%Z))%Z.
Proof.
  split; [reflexivity|].
  apply (proj1 (proj2 (proj2 (proj2 (proj2
           (rankPrinciples_positive_sorted_stable
              [(1, 3%Z); (2, 0%Z); (3, 5%Z); (4, 3%Z); (5, (-1)%Z); (6, 5%Z)]
              snd))))) 1%nat (6, 5%Z) (1, 3%Z)); reflexivity.
Defined.

(** C4. The token scorer returns the sum, over the tokens, of the query
    score of each token (the same function, so each token on its own is
    subject to the id short-circuit) plus 15 times the count the boost map
    holds for the category of the principle, 0 when it holds none. *)
Theorem scorePrincipleByTokens_is_sum_plus_boost
    (P : CleanCodePrinciple) (T : list jsstring) (B : gmap BoostKey Z) :
  scorePrincipleByTokens P T B
  = (sumZ (map (scorePrincipleByQuery P) T)
     + 15 * match B !! Category (category P) with
            | Some count => count
            | None => 0
            end)%Z
  /\ (forall t : jsstring,
         scorePrincipleByTokens P (T ++ [t]) B
         = (scorePrincipleByTokens P T B + scorePrincipleByQuery P t)%Z)
  /\ scorePrincipleByTokens P [] B
     = (15 * default 0%Z (B !! Category (category P)))%Z.
Proof.
  assert (Hd : match B !! Category (category P) with
               | Some count => count
               | None => 0%Z
               end = default 0%Z (B !! Category (category P))).
  { by destruct (B !! Category (category P)). }
  rewrite Hd. split; [|split].
  - apply scorePrincipleByTokens_sum.
  - intros t. rewrite !scorePrincipleByTokens_sum, map_app, sumZ_app.
    cbn [map sumZ foldr]. lia.
  - rewrite scorePrincipleByTokens_sum. cbn [map sumZ foldr]. lia.
Qed.

(** C5. The empty query is legal.  It normalizes to the empty string; no id
    of the corpus is empty, so the id branch never fires, while the name,
    description and category branches fire for every principle (the empty
    string is contained in every string) and each tag adds 50.  Every
    principle of the corpus therefore scores 130 + 50 per tag, which is
    positive; the search returns the whole corpus, ordered by the tag
    contributions: they never increase along the result, principles of equal
    tag contribution keep the order they have in the corpus, and so the
    result is the principles of six tags, then those of five, then those of
    four, each group in corpus order. *)
Theorem empty_query_returns_whole_corpus :
  Js.trim (Js.toLowerCase (js "")) = []
  /\ (forall s : jsstring, Js.includes s [] = true)
  /\ Forall
       (fun P =>
          id P <> []
          /\ scorePrincipleByQuery P (js "")
             = (80 + 30 + 20 + 50 * Z.of_nat (length (tags P)))%Z
          /\ (0 < scorePrincipleByQuery P (js ""))%Z)
       PRINCIPLES
  /\ searchPrinciple (js "") ≡ₚ PRINCIPLES
  /\ length (searchPrinciple (js "")) = 63%nat
  /\ searchPrinciple (js "")
     = rankPrinciples PRINCIPLES
         (fun P => sumZ (map (tagContribution []) (tags P)))
  /\ StronglySorted
       (fun a b =>
          (sumZ (map (tagContribution []) (tags a))
           >= sumZ (map (tagContribution []) (tags b)))%Z)
       (searchPrinciple (js ""))
  /\ (forall s : Z,
         List.filter
           (fun P => (sumZ (map (tagContribution []) (tags P)) =? s)%Z)
           (searchPrinciple (js ""))
         = List.filter
             (fun P => (sumZ (map (tagContribution []) (tags P)) =? s)%Z)
             PRINCIPLES)
  /\ searchPrinciple (js "")
     = List.filter (fun P => (length (tags P) =? 6)%nat) PRINCIPLES
       ++ List.filter (fun P => (length (tags P) =? 5)%nat) PRINCIPLES
       ++ List.filter (fun P => (length (tags P) =? 4)%nat) PRINCIPLES.
Proof.
  assert (E : searchPrinciple (js "")
              = rankPrinciples PRINCIPLES
                  (fun P => sumZ (map (tagContribution []) (tags P)))).
  { apply (bool_decide_unpack _). vm_compute. reflexivity. }
  split; [reflexivity|]. split; [apply includes_nil|].
  split; [|split; [apply searchPrinciple_empty_perm|split]].
  - eapply Forall_impl; [apply corpus_empty_query|].
    cbv beta. intros P [Hid Hs]. rewrite Hs. split; [exact Hid | split; lia].
  - vm_compute. reflexivity.
  - split; [exact E|]. split; [|split].
    + rewrite E, rankPrinciples_sort.
      apply (sort_desc (fun P => sumZ (map (tagContribution []) (tags P)))).
    + intros s. rewrite E, rankPrinciples_sort.
      rewrite (sort_stable
                 (fun P => sumZ (map (tagContribution []) (tags P)))).
      rewrite (filter_all
                 (fun p => (0 <? sumZ (map (tagContribution []) (tags p)))%Z)
                 PRINCIPLES); [reflexivity|].
      apply (bool_decide_unpack _). vm_compute. reflexivity.
    + apply (bool_decide_unpack _). vm_compute. reflexivity.
Qed.

(** C6. When no principle scores above 0 the ranker returns the empty list,
    for any list and any scoring function, and so do both search paths.
    The query "zzzznotaword" is such a case: every principle of the corpus
    scores 0 against it on the direct path and on the context path, and both
    results are empty. *)
Theorem no_match_gives_empty_ranking :
  (forall (T : Type) (principles : list T) (scoreFn : T -> Z),
      Forall (fun p => (scoreFn p <= 0)%Z) principles ->
      rankPrinciples principles scoreFn = [])
  /\ (forall query : jsstring,
         Forall (fun P => (scorePrincipleByQuery P query <= 0)%Z) PRINCIPLES ->
         searchPrinciple query = [])
  /\ (forall context : jsstring,
         Forall
           (fun P =>
              (scorePrincipleByTokens P (removeStopWords (tokenize context))
                 (detectCategoryBoosts (removeStopWords (tokenize context)))
               <= 0)%Z)
           PRINCIPLES ->
         searchByContext context = [])
  /\ Forall (fun P => scorePrincipleByQuery P (js "zzzznotaword") = 0%Z)
       PRINCIPLES
  /\ searchPrinciple (js "zzzznotaword") = []
  /\ removeStopWords (tokenize (js "zzzznotaword")) = [js "zzzznotaword"]
  /\ searchByContext (js "zzzznotaword") = [].
Proof.
  split; [|split; [|split; [|split; [|split; [|split]]]]].
  - intros T principles scoreFn. apply rankPrinciples_nonpositive.
  - intros query. apply rankPrinciples_nonpositive.
  - intros context. apply rankPrinciples_nonpositive.
  - apply (bool_decide_unpack _). vm_compute. reflexivity.
  - vm_compute. reflexivity.
  - vm_compute. reflexivity.
  - vm_compute. reflexivity.
Qed.

Lemma no_match_gives_empty_ranking_witness :
  Forall (fun P => (scorePrincipleByQuery P (js "zzzznotaword") <= 0)%Z)
    PRINCIPLES
  /\ searchPrinciple (js "zzzznotaword") = [].
Proof.
  assert (H : Forall
                (fun P => (scorePrincipleByQuery P (js "zzzznotaword") <= 0)%Z)
                PRINCIPLES).
  { apply (bool_decide_unpack _). vm_compute. reflexivity. }
  split; [exact H|].
  exact (proj1 (proj2 no_match_gives_empty_ranking) (js "zzzznotaword") H).
Defined.

(** C7. Tokenizing and removing stop words is idempotent: writing the
    resulting tokens out again, separated by single spaces, and processing
    that text gives the same tokens.  Each resulting token is unchanged by
    lowercasing, consists of lowercase letters, digits and hyphens only, has
    more than one code unit and is not a stop word. *)
Theorem tokenize_removeStopWords_idempotent (text : jsstring) :
  removeStopWords
    (tokenize (Js.join (js " ") (removeStopWords (tokenize text))))
  = removeStopWords (tokenize text)
  /\ Forall
       (fun token =>
          Js.toLowerCase token = token
          /\ Forall (fun c => isTokenChar c = true) token
          /\ (1 < length token)%nat
          /\ token ∉ STOP_WORDS)
       (removeStopWords (tokenize text)).
Proof.
  pose proof (filter_Forall
                (fun token => negb (bool_decide (token ∈ STOP_WORDS)))
                _ _ (tokenize_tokens text)) as H.
  fold (removeStopWords (tokenize text)) in H.
  split.
  - fold (reassemble (removeStopWords (tokenize text))).
    rewrite tokenize_join.
    + unfold removeStopWords. apply filter_idem.
    + eapply Forall_impl; [exact H|]. cbv beta. tauto.
  - eapply Forall_impl; [exact H|]. cbv beta.
    intros token [[Htok Hlen] Hstop].
    split; [by apply toLowerCase_token|].
    split; [apply Htok|]. split; [exact Hlen|].
    apply negb_true_iff, bool_decide_eq_false in Hstop. exact Hstop.
Qed.

(** C8. The boost map does not depend on the order of the tokens: two
    token lists that are permutations of each other give the same map, and
    so the same count for every category. *)
Theorem detectCategoryBoosts_permutation_invariant (T T' : list jsstring) :
  T ≡ₚ T' ->
  detectCategoryBoosts T = detectCategoryBoosts T'
  /\ (forall c : PrincipleCategory,
         detectCategoryBoosts T !! Category c
         = detectCategoryBoosts T' !! Category c)
  /\ (forall c : PrincipleCategory,
         default 0%Z (detectCategoryBoosts T !! Category c)
         = default 0%Z (detectCategoryBoosts T' !! Category c)).
Proof.
  intros H. pose proof (detectCategoryBoosts_perm T T' H) as E.
  split; [exact E|]. split; intros c; by rewrite E.
Qed.

Lemma detectCategoryBoosts_permutation_invariant_witness :
  [js "function"; js "srp"; js "parameters"]
    ≡ₚ [js "srp"; js "parameters"; js "function"]
  /\ detectCategoryBoosts [js "function"; js "srp"; js "parameters"]
     = detectCategoryBoosts [js "srp"; js "parameters"; js "function"].
Proof.
  assert (H : [js "function"; js "srp"; js "parameters"]
                ≡ₚ [js "srp"; js "parameters"; js "function"]).
  { apply (Permutation_cons_append [js "srp"; js "parameters"] (js "function")). }
  split; [exact H|].
  exact (proj1 (detectCategoryBoosts_permutation_invariant _ _ H)).
Defined.

(** C9. The context "my function has too many parameters" leaves the
    tokens function, too, many, parameters; the keyword table sends function
    and parameters to the category functions and knows neither of the other
    two, so the boost map holds exactly the count 2 for functions, and the
    token scorer adds exactly 2 * 15 = 30 to the token scores of every
    principle of that category, whatever its texts are.  (The token function
    is itself contained in the category string functions, so for such a
    principle the token scores are never all zero.) *)
Theorem context_function_parameters_boost :
  let context := js "my function has too many parameters" in
  let tokens := removeStopWords (tokenize context) in
  let boosts := detectCategoryBoosts tokens in
  tokens = [js "function"; js "too"; js "many"; js "parameters"]
  /\ keywordLookup (js "function") = Some (Category functions)
  /\ keywordLookup (js "parameters") = Some (Category functions)
  /\ keywordLookup (js "too") = None
  /\ keywordLookup (js "many") = None
  /\ boosts = {[ Category functions := 2%Z ]}
  /\ boosts !! Category functions = Some 2%Z
  /\ (forall P : CleanCodePrinciple,
         category P = functions ->
         scorePrincipleByTokens P tokens boosts
         = (sumZ (map (scorePrincipleByQuery P) tokens) + 30)%Z
         /\ scorePrincipleByTokens P tokens boosts
            = (scorePrincipleByTokens P tokens ∅ + 30)%Z
         /\ (20 <= scorePrincipleByQuery P (js "function"))%Z).
Proof.
  intros context tokens boosts.
  assert (Hb : boosts !! Category functions = Some 2%Z).
  { vm_compute. reflexivity. }
  split; [vm_compute; reflexivity|].
  split; [vm_compute; reflexivity|].
  split; [vm_compute; reflexivity|].
  split; [vm_compute; reflexivity|].
  split; [vm_compute; reflexivity|].
  split; [vm_compute; reflexivity|].
  split; [exact Hb|].
  intros P Hcat.
  assert (Hf : (20 <= scorePrincipleByQuery P (js "function"))%Z).
  { apply scorePrincipleByQuery_category_hit. rewrite Hcat.
    vm_compute. reflexivity. }
  revert Hf. generalize (scorePrincipleByQuery P (js "function")). intros f Hf.
  rewrite !scorePrincipleByTokens_sum, Hcat, Hb, lookup_empty.
  change (default 0%Z (Some 2%Z)) with 2%Z.
  change (default 0%Z (@None Z)) with 0%Z.
  generalize (sumZ (map (scorePrincipleByQuery P) tokens)). intros z.
  split; [lia | split; lia].
Qed.

Lemma context_function_parameters_boost_witness :
  scorePrincipleByTokens
    {| id := js "avoid-clutter"; name := js "Avoid Clutter";
       category := functions; description := js "Remove what is unused.";
       tags := map js ["clutter"] |}
    (removeStopWords (tokenize (js "my function has too many parameters")))
    (detectCategoryBoosts
       (removeStopWords (tokenize (js "my function has too many parameters"))))
  = (sumZ
       (map
          (scorePrincipleByQuery
             {| id := js "avoid-clutter"; name := js "Avoid Clutter";
                category := functions;
                description := js "Remove what is unused.";
                tags := map js ["clutter"] |})
          (removeStopWords (tokenize (js "my function has too many parameters"))))
     + 30)%Z.
Proof.
  exact (proj1
           (proj2 (proj2 (proj2 (proj2 (proj2 (proj2 (proj2
              context_function_parameters_boost))))))
              {| id := js "avoid-clutter"; name := js "Avoid Clutter";
                 category := functions;
                 description := js "Remove what is unused.";
                 tags := map js ["clutter"] |}
              eq_refl)).
Defined.

(** C10. On the context path, a text that leaves no token after
    tokenization and stop-word removal gives every principle the score 0
    (nothing to sum, empty boost map) and an empty result.  The empty
    string, a text of white space only and a text of stop words and single
    characters are such texts.  On the single-query path the empty string
    returns the whole corpus instead. *)
Theorem empty_token_stream_gives_empty_result :
  (forall context : jsstring,
      removeStopWords (tokenize context) = [] ->
      detectCategoryBoosts (removeStopWords (tokenize context)) = ∅
      /\ (forall P : CleanCodePrinciple,
             scorePrincipleByTokens P (removeStopWords (tokenize context))
               (detectCategoryBoosts (removeStopWords (tokenize context)))
             = 0%Z)
      /\ searchByContext context = [])
  /\ removeStopWords (tokenize (js "")) = []
  /\ removeStopWords (tokenize [32; 9; 10; 32]) = []
  /\ removeStopWords (tokenize (js "The a  IS x, of: y & to!")) = []
  /\ searchByContext (js "") = []
  /\ searchPrinciple (js "") ≡ₚ PRINCIPLES.
Proof.
  split; [|split; [|split; [|split; [|split]]]].
  - intros context H. split; [|split].
    + by rewrite H.
    + intros P. by rewrite H.
    + by apply searchByContext_no_tokens.
  - vm_compute. reflexivity.
  - vm_compute. reflexivity.
  - vm_compute. reflexivity.
  - by apply searchByContext_no_tokens.
  - apply searchPrinciple_empty_perm.
Qed.

Lemma empty_token_stream_gives_empty_result_witness :
  removeStopWords (tokenize (js "the a is")) = []
  /\ searchByContext (js "the a is") = [].
Proof.
  assert (H : removeStopWords (tokenize (js "the a is")) = []).
  { vm_compute. reflexivity. }
  split; [exact H|].
  exact (proj2 (proj2
           (proj1 empty_token_stream_gives_empty_result (js "the a is") H))).
Defined.

(** * Further properties of the code *)

(** ** Lowercasing and trimming *)

(** [trimStart] removes a prefix of white space and leaves a string that
    does not start with white space. *)
Lemma trimStart_split (s : jsstring) :
  exists w, s = w ++ Js.trimStart s /\ Forall (fun c => Js.isWhiteSpace c = true) w.
Proof.
  induction s as [|c s (w & E & Hw)]; [by exists []|].
  cbn [Js.trimStart]. destruct (Js.isWhiteSpace c) eqn:Hc.
  - exists (c :: w). split; [by rewrite E at 1 | by constructor].
  - by exists [].
Qed.

Lemma trimStart_fixed (s : jsstring) :
  Js.trimStart s = s <->
  match s with [] => True | c :: _ => Js.isWhiteSpace c = false end.
Proof.
  destruct s as [|c s]; [done|]. cbn [Js.trimStart].
  destruct (Js.isWhiteSpace c) eqn:Hc; [|done].
  split; [|done]. intros E.
  destruct (trimStart_split s) as (w & Es & _).
  apply (f_equal length) in E. apply (f_equal length) in Es.
  rewrite length_app in Es. simpl in E. lia.
Qed.

Lemma trimStart_idem (s : jsstring) :
  Js.trimStart (Js.trimStart s) = Js.trimStart s.
Proof.
  induction s as [|c s IH]; [reflexivity|].
  cbn [Js.trimStart]. destruct (Js.isWhiteSpace c) eqn:Hc; [exact IH|].
  cbn [Js.trimStart]. by rewrite Hc.
Qed.

Lemma trimStart_white_app (w s : jsstring) :
  Forall (fun c => Js.isWhiteSpace c = true) w ->
  Js.trimStart (w ++ s) = Js.trimStart s.
Proof.
  induction 1 as [|c w Hc Hw IH]; [reflexivity|].
  cbn [app Js.trimStart]. by rewrite Hc.
Qed.

(** A string that does not start with white space keeps its start under
    [trimEnd]. *)
Lemma trimStart_trimEnd (s : jsstring) :
  Js.trimStart s = s -> Js.trimStart (Js.trimEnd s) = Js.trimEnd s.
Proof.
  intros Hs. unfold Js.trimEnd.
  destruct (trimStart_split (rev s)) as (w & E & Hw).
  set (v := Js.trimStart (rev s)) in *.
  apply trimStart_fixed.
  destruct (rev v) as [|c r] eqn:Er; [done|].
  assert (Es : s = c :: r ++ rev w).
  { rewrite <- (rev_involutive s), E, rev_app_distr, Er. reflexivity. }
  apply trimStart_fixed in Hs. by rewrite Es in Hs.
Qed.

Lemma trim_idem (s : jsstring) : Js.trim (Js.trim s) = Js.trim s.
Proof.
  unfold Js.trim. rewrite trimStart_trimEnd by apply trimStart_idem.
  unfold Js.trimEnd. by rewrite rev_involutive, trimStart_idem.
Qed.

Lemma trim_white_app (w1 w2 s : jsstring) :
  Forall (fun c => Js.isWhiteSpace c = true) w1 ->
  Forall (fun c => Js.isWhiteSpace c = true) w2 ->
  Js.trim (w1 ++ s ++ w2) = Js.trim s.
Proof.
  intros H1 H2. unfold Js.trim. rewrite trimStart_white_app by done.
  destruct (trimStart_split s) as (w & E & Hw).
  destruct (decide (Js.trimStart s = [])) as [Hn|Hn].
  - (* only white space is left *)
    rewrite Hn.
    replace (Js.trimStart (s ++ w2)) with (@nil N); [reflexivity|].
    rewrite E, Hn, app_nil_r. symmetry.
    rewrite <- (app_nil_r (w ++ w2)). apply trimStart_white_app.
    by apply Forall_app.
  - assert (Ht : Js.trimStart (s ++ w2) = Js.trimStart s ++ w2).
    { rewrite E at 1. rewrite <- app_assoc, trimStart_white_app by done.
      apply trimStart_fixed.
      pose proof (proj1 (trimStart_fixed _) (trimStart_idem s)) as Hh.
      destruct (Js.trimStart s); [done | exact Hh]. }
    rewrite Ht. unfold Js.trimEnd. rewrite rev_app_distr.
    rewrite trimStart_white_app; [reflexivity|]. by apply Forall_rev.
Qed.

(** Lowercasing of Latin-1 strings: it stays within Latin-1, is idempotent
    and turns white space into white space and nothing else. *)

Lemma latin1_units_checked :
  forallb
    (fun c =>
       (Js.lowerUnit c <? 256)
       && (Js.lowerUnit (Js.lowerUnit c) =? Js.lowerUnit c)
       && Bool.eqb (Js.isWhiteSpace (Js.lowerUnit c)) (Js.isWhiteSpace c))
    (map N.of_nat (seq 0 256))
  = true.
Proof. vm_compute. reflexivity. Qed.

Lemma latin1_unit (c : N) :
  c < 256 ->
  Js.lowerUnit c < 256
  /\ Js.lowerUnit (Js.lowerUnit c) = Js.lowerUnit c
  /\ Js.isWhiteSpace (Js.lowerUnit c) = Js.isWhiteSpace c.
Proof.
  intros Hc. pose proof latin1_units_checked as H.
  rewrite forallb_forall in H. specialize (H c).
  assert (Hin : In c (map N.of_nat (seq 0 256))).
  { rewrite <- (N2Nat.id c). apply in_map, in_seq. lia. }
  apply H in Hin. apply andb_true_iff in Hin as [Hin H3].
  apply andb_true_iff in Hin as [H1 H2].
  apply N.ltb_lt in H1. apply N.eqb_eq in H2. apply Bool.eqb_prop in H3.
  by repeat split.
Qed.

Lemma lowerUnit_latin1 (c : N) : c < 256 -> Js.lowerUnit c < 256.
Proof. intros Hc. apply (latin1_unit c Hc). Qed.

Lemma lowerUnit_idem (c : N) :
  c < 256 -> Js.lowerUnit (Js.lowerUnit c) = Js.lowerUnit c.
Proof. intros Hc. apply (latin1_unit c Hc). Qed.

Lemma white_lowerUnit (c : N) :
  c < 256 -> Js.isWhiteSpace (Js.lowerUnit c) = Js.isWhiteSpace c.
Proof. intros Hc. apply (latin1_unit c Hc). Qed.

Lemma latin1_toLowerCase (s : jsstring) : latin1 s -> latin1 (Js.toLowerCase s).
Proof.
  unfold latin1, Js.toLowerCase. intros H. apply Forall_map.
  eapply Forall_impl; [exact H|]. apply lowerUnit_latin1.
Qed.

Lemma latin1_trimStart (s : jsstring) : latin1 s -> latin1 (Js.trimStart s).
Proof.
  unfold latin1. induction 1 as [|c s Hc Hs IH]; [constructor|].
  cbn [Js.trimStart]. destruct (Js.isWhiteSpace c); [exact IH | by constructor].
Qed.

Lemma latin1_trim (s : jsstring) : latin1 s -> latin1 (Js.trim s).
Proof.
  intros H. unfold Js.trim, Js.trimEnd, latin1.
  apply Forall_rev, latin1_trimStart, Forall_rev, latin1_trimStart, H.
Qed.

Lemma toLowerCase_idem (s : jsstring) :
  latin1 s -> Js.toLowerCase (Js.toLowerCase s) = Js.toLowerCase s.
Proof.
  unfold Js.toLowerCase. induction 1 as [|c s Hc Hs IH]; [reflexivity|].
  cbn [map]. by rewrite lowerUnit_idem, IH.
Qed.

Lemma trimStart_lower (s : jsstring) :
  latin1 s -> Js.trimStart (Js.toLowerCase s) = Js.toLowerCase (Js.trimStart s).
Proof.
  induction 1 as [|c s Hc Hs IH]; [reflexivity|].
  cbn [Js.toLowerCase map Js.trimStart]. rewrite white_lowerUnit by exact Hc.
  destruct (Js.isWhiteSpace c); [exact IH | reflexivity].
Qed.

Lemma trim_lower (s : jsstring) :
  latin1 s -> Js.trim (Js.toLowerCase s) = Js.toLowerCase (Js.trim s).
Proof.
  intros H. unfold Js.trim, Js.trimEnd. rewrite trimStart_lower by exact H.
  unfold Js.toLowerCase at 1. rewrite <- map_rev.
  fold (Js.toLowerCase (rev (Js.trimStart s))).
  rewrite trimStart_lower by (apply Forall_rev, latin1_trimStart, H).
  unfold Js.toLowerCase. by rewrite map_rev.
Qed.

Lemma normalize_idem (Q : jsstring) :
  latin1 Q -> normalize (normalize Q) = normalize Q.
Proof.
  intros H. unfold normalize.
  rewrite (trim_lower (Js.trim (Js.toLowerCase Q)))
    by (apply latin1_trim, latin1_toLowerCase, H).
  rewrite trim_idem, <- trim_lower by (apply latin1_toLowerCase, H).
  by rewrite toLowerCase_idem.
Qed.

Lemma normalize_lower (Q : jsstring) :
  latin1 Q -> normalize (Js.toLowerCase Q) = normalize Q.
Proof. intros H. unfold normalize. by rewrite toLowerCase_idem. Qed.

Lemma normalize_padded (w1 w2 Q : jsstring) :
  latin1 Q -> latin1 w1 -> latin1 w2 ->
  Forall (fun c => Js.isWhiteSpace c = true) w1 ->
  Forall (fun c => Js.isWhiteSpace c = true) w2 ->
  normalize (w1 ++ Q ++ w2) = normalize Q.
Proof.
  intros _ L1 L2 H1 H2. unfold normalize, Js.toLowerCase. rewrite !map_app.
  apply trim_white_app.
  - apply Forall_map. unfold latin1 in L1.
    induction L1 as [|c w Hc Hw IH]; [constructor|].
    inversion H1; subst. constructor; [|by apply IH].
    cbv beta. by rewrite white_lowerUnit.
  - apply Forall_map. unfold latin1 in L2.
    induction L2 as [|c w Hc Hw IH]; [constructor|].
    inversion H2; subst. constructor; [|by apply IH].
    cbv beta. by rewrite white_lowerUnit.
Qed.

(** The scorer reads the query through [normalize] only. *)
Lemma scorePrincipleByQuery_normalize (P : CleanCodePrinciple)
    (Q1 Q2 : jsstring) :
  normalize Q1 = normalize Q2 ->
  scorePrincipleByQuery P Q1 = scorePrincipleByQuery P Q2.
Proof.
  intros H. unfold scorePrincipleByQuery. fold (normalize Q1) (normalize Q2).
  by rewrite H.
Qed.

(** ** Bounds of the contributions *)

Lemma tagContribution_le (q tag : jsstring) : (tagContribution q tag <= 70)%Z.
Proof.
  unfold tagContribution. destruct (decide (tag = q)); [lia|].
  destruct (Js.includes tag q || Js.includes q tag); lia.
Qed.

Lemma tag_sum_le (q : jsstring) (l : list jsstring) :
  (sumZ (map (tagContribution q) l) <= 70 * Z.of_nat (length l))%Z.
Proof.
  induction l as [|tag l IH]; cbn [map sumZ foldr length]; [lia|].
  fold (sumZ (map (tagContribution q) l)).
  pose proof (tagContribution_le q tag). lia.
Qed.

Lemma tagContribution_zero (q tag : jsstring) :
  tagContribution q tag = 0%Z <->
  Js.includes tag q = false /\ Js.includes q tag = false.
Proof.
  unfold tagContribution. destruct (decide (tag = q)) as [->|Hne].
  - rewrite includes_refl. split; [lia | by intros []].
  - destruct (Js.includes tag q), (Js.includes q tag); simpl;
      split; try lia; try done; by intros [].
Qed.

Lemma tag_sum_zero (q : jsstring) (l : list jsstring) :
  sumZ (map (tagContribution q) l) = 0%Z <->
  Forall (fun tag => Js.includes tag q = false /\ Js.includes q tag = false) l.
Proof.
  induction l as [|tag l IH]; cbn [map sumZ foldr].
  - split; [constructor | reflexivity].
  - fold (sumZ (map (tagContribution q) l)).
    pose proof (tagContribution_nonneg q tag).
    pose proof (tag_sum_nonneg q l).
    rewrite Forall_cons, <- IH, <- tagContribution_zero. lia.
Qed.

Lemma scorePrincipleByQuery_nonneg (P : CleanCodePrinciple) (Q : jsstring) :
  (0 <= scorePrincipleByQuery P Q)%Z.
Proof.
  destruct (decide (id P = normalize Q)) as [Hid|Hid].
  - rewrite scorePrincipleByQuery_id by exact Hid. lia.
  - rewrite scorePrincipleByQuery_other by exact Hid.
    pose proof (tag_sum_nonneg (normalize Q) (tags P)).
    unfold nameContribution, descriptionContribution, categoryContribution.
    destruct (Js.includes (Js.toLowerCase (name P)) (normalize Q));
      destruct (Js.includes (Js.toLowerCase (description P)) (normalize Q));
      destruct (Js.includes (categoryName (category P)) (normalize Q)); lia.
Qed.

Lemma token_sum_nonneg (P : CleanCodePrinciple) (T : list jsstring) :
  (0 <= sumZ (map (scorePrincipleByQuery P) T))%Z.
Proof.
  induction T as [|t T IH]; cbn [map sumZ foldr]; [lia|].
  fold (sumZ (map (scorePrincipleByQuery P) T)).
  pose proof (scorePrincipleByQuery_nonneg P t). lia.
Qed.

Lemma sumZ_perm (l1 l2 : list Z) : l1 ≡ₚ l2 -> sumZ l1 = sumZ l2.
Proof.
  induction 1 as [|x l1 l2 Hp IH|x y l|l1 l2 l3 H1 IH1 H2 IH2];
    cbn [sumZ foldr]; [reflexivity| |lia|congruence].
  fold (sumZ l1) (sumZ l2). lia.
Qed.

(** ** Counting the keyword hits *)

Section BoostCount.

Local Abbreviation step :=
  (fun (boosts : gmap BoostKey Z) (token : jsstring) =>
     match keywordLookup token with
     | Some category =>
         let current := default 0%Z (boosts !! category) in
         <[category := (current + 1)%Z]> boosts
     | None => boosts
     end).

Local Abbreviation hits k T :=
  (length (List.filter (fun t => bool_decide (keywordLookup t = Some k)) T)).

Lemma boost_loop_count (k : BoostKey) (T : list jsstring) :
  forall boosts : gmap BoostKey Z,
    default 0%Z (fold_left step T boosts !! k)
    = (default 0%Z (boosts !! k) + Z.of_nat (hits k T))%Z.
Proof.
  induction T as [|t T IH]; intros boosts; cbn [fold_left List.filter].
  - cbn [length]. lia.
  - rewrite IH. destruct (keywordLookup t) as [k'|] eqn:E.
    + cbv zeta. destruct (decide (k' = k)) as [->|Hne].
      * rewrite lookup_insert_eq, bool_decide_eq_true_2 by reflexivity.
        cbn [length from_option]. unfold Datatypes.id. lia.
      * rewrite lookup_insert_ne by exact Hne.
        rewrite bool_decide_eq_false_2 by congruence. lia.
    + rewrite bool_decide_eq_false_2 by congruence. lia.
Qed.

Lemma boost_loop_none (k : BoostKey) (T : list jsstring) :
  forall boosts : gmap BoostKey Z,
    fold_left step T boosts !! k = None <->
    boosts !! k = None /\ hits k T = 0%nat.
Proof.
  induction T as [|t T IH]; intros boosts; cbn [fold_left List.filter].
  - cbn [length]. tauto.
  - rewrite IH. destruct (keywordLookup t) as [k'|] eqn:E.
    + cbv zeta. destruct (decide (k' = k)) as [->|Hne].
      * rewrite lookup_insert_eq, bool_decide_eq_true_2 by reflexivity.
        cbn [length]. split; intros [? ?]; discriminate.
      * rewrite lookup_insert_ne by exact Hne.
        rewrite bool_decide_eq_false_2 by congruence. tauto.
    + rewrite bool_decide_eq_false_2 by congruence. tauto.
Qed.

Lemma detectCategoryBoosts_lookup (k : BoostKey) (T : list jsstring) :
  detectCategoryBoosts T !! k
  = if decide (hits k T = 0%nat) then None else Some (Z.of_nat (hits k T)).
Proof.
  unfold detectCategoryBoosts.
  pose proof (boost_loop_count k T ∅) as Hc.
  pose proof (boost_loop_none k T ∅) as Hn.
  rewrite lookup_empty in Hc, Hn.
  destruct (decide (hits k T = 0%nat)) as [H0|H0].
  - apply Hn. by split.
  - destruct (fold_left step T ∅ !! k) as [v|] eqn:Ev.
    + cbn [from_option] in Hc. unfold Datatypes.id in Hc. f_equal. lia.
    + exfalso. apply H0. by apply Hn.
Qed.

End BoostCount.

Lemma boost_count_nonneg (T : list jsstring) (k : BoostKey) :
  (0 <= default 0%Z (detectCategoryBoosts T !! k))%Z.
Proof.
  rewrite detectCategoryBoosts_lookup.
  destruct (decide _); cbn [from_option]; unfold Datatypes.id; lia.
Qed.

(** ** More on the ranker *)

Section RankMore.
Context {T : Type} (scoreFn : T -> Z).

Lemma rankPrinciples_elem (principles : list T) (p : T) :
  p ∈ rankPrinciples principles scoreFn
  <-> p ∈ principles /\ (0 < scoreFn p)%Z.
Proof.
  rewrite rankPrinciples_sort, (sort_perm scoreFn).
  rewrite !list_elem_of_In, filter_In, Z.ltb_lt. tauto.
Qed.

Lemma rankPrinciples_sorted (principles : list T) :
  StronglySorted (fun a b => (scoreFn a >= scoreFn b)%Z)
    (rankPrinciples principles scoreFn).
Proof. rewrite rankPrinciples_sort. apply (sort_desc scoreFn). Qed.

Lemma rankPrinciples_ext (g : T -> Z) (principles : list T) :
  (forall p, scoreFn p = g p) ->
  rankPrinciples principles scoreFn = rankPrinciples principles g.
Proof.
  intros H. unfold rankPrinciples. do 3 f_equal.
  apply map_ext. intros p. by rewrite H.
Qed.

(** The host's sort leaves a list alone that is already in order. *)
Lemma sort_of_sorted (l : list T) :
  StronglySorted (fun a b => (scoreFn a >= scoreFn b)%Z) l ->
  Js.sort (fun a b => (scoreFn b - scoreFn a)%Z) l = l.
Proof.
  induction 1 as [|x l Hs IH Hx]; [reflexivity|].
  cbn [Js.sort foldr]. fold (Js.sort (fun a b => (scoreFn b - scoreFn a)%Z) l).
  rewrite IH. destruct l as [|y l]; [reflexivity|].
  cbn [Js.insert_sorted]. inversion Hx as [|? ? Hy _]; subst.
  destruct (Z.leb_spec (scoreFn y - scoreFn x) 0); [reflexivity | lia].
Qed.

Lemma rankPrinciples_idem (principles : list T) :
  rankPrinciples (rankPrinciples principles scoreFn) scoreFn
  = rankPrinciples principles scoreFn.
Proof.
  rewrite (rankPrinciples_sort scoreFn (rankPrinciples principles scoreFn)).
  rewrite filter_all.
  - apply sort_of_sorted, rankPrinciples_sorted.
  - rewrite Forall_forall. intros p Hp.
    apply rankPrinciples_elem in Hp as [_ Hp]. by apply Z.ltb_lt.
Qed.

Lemma rankPrinciples_length (principles : list T) :
  (length (rankPrinciples principles scoreFn) <= length principles)%nat.
Proof.
  rewrite rankPrinciples_sort, (Permutation_length (sort_perm scoreFn _)).
  apply filter_length_le.
Qed.

End RankMore.

(** In a sorted list nothing after a cut outranks anything before it. *)
Lemma sorted_take_drop {A : Type} (R : A -> A -> Prop) (l : list A) (n : nat) :
  StronglySorted R l ->
  forall a b, a ∈ take n l -> b ∈ drop n l -> R a b.
Proof.
  intros Hs. revert n. induction Hs as [|x l Hs IH Hx]; intros n a b Ha Hb.
  - rewrite take_nil in Ha. by apply elem_of_nil in Ha.
  - destruct n as [|n]; [by apply elem_of_nil in Ha|].
    cbn [take drop] in *. apply elem_of_cons in Ha as [->|Ha].
    + rewrite Forall_forall in Hx. apply Hx.
      rewrite <- (take_drop n l). apply elem_of_app. by right.
    + by apply (IH n).
Qed.

Lemma slice_take_drop {A : Type} (l : list A) (i j : nat) :
  Js.slice l 0 i ++ Js.slice l i (i + j) = take (i + j) l.
Proof.
  unfold Js.slice. rewrite drop_0, Nat.sub_0_r.
  replace (i + j - i)%nat with j by lia.
  by rewrite take_take_drop.
Qed.

(** ** More on the tokenizer *)

Section ScannersMore.
Local Abbreviation nonToken := (fun c : N => negb (isTokenChar c)).
Local Abbreviation white := Js.isWhiteSpace.
Local Abbreviation sp := (32 :: @nil N).
Local Abbreviation long := (fun token : jsstring => (1 <? length token)%nat).

(** Splitting the replaced text at white space is splitting the text itself
    at the runs that were replaced. *)
Lemma split_replace (s : jsstring) :
  forall (b : bool) (cur : jsstring),
    Js.splitRuns_go white b cur (Js.replaceRuns_go nonToken sp b s)
    = Js.splitRuns_go nonToken b cur s.
Proof.
  induction s as [|c s IH]; intros b cur; [reflexivity|].
  cbn [Js.replaceRuns_go Js.splitRuns_go].
  destruct (isTokenChar c) eqn:Hc; cbn [negb].
  - cbn [Js.splitRuns_go]. rewrite (tokenChar_not_white c Hc). apply IH.
  - destruct b; [apply IH|].
    cbn [app Js.splitRuns_go]. change (white 32) with true. cbv iota.
    f_equal. apply IH.
Qed.

Lemma tokenize_direct (text : jsstring) :
  tokenize text
  = List.filter long (Js.splitRuns nonToken (Js.toLowerCase text)).
Proof.
  unfold tokenize, Js.splitRuns, Js.replaceRuns.
  change (js " ") with sp. by rewrite split_replace.
Qed.

Lemma split_flag (C : N -> bool) (s : jsstring) :
  List.filter long (Js.splitRuns_go C false [] s)
  = List.filter long (Js.splitRuns_go C true [] s).
Proof.
  destruct s as [|c s]; [reflexivity|].
  cbn [Js.splitRuns_go]. destruct (C c); reflexivity.
Qed.

Lemma split_app_separator (C : N -> bool) (c : N) (s1 s2 : jsstring) :
  C c = true ->
  forall (b : bool) (cur : jsstring),
    (b = true -> cur = []) ->
    List.filter long (Js.splitRuns_go C b cur (s1 ++ c :: s2))
    = List.filter long (Js.splitRuns_go C b cur s1)
      ++ List.filter long (Js.splitRuns_go C false [] s2).
Proof.
  intros Hc. induction s1 as [|x s1 IH]; intros b cur Hb.
  - cbn [app Js.splitRuns_go]. rewrite Hc. destruct b.
    + rewrite (Hb eq_refl). cbn [rev List.filter length Nat.ltb Nat.leb app].
      by rewrite split_flag.
    + change (rev cur :: Js.splitRuns_go C true [] s2)
        with ([rev cur] ++ Js.splitRuns_go C true [] s2).
      rewrite List.filter_app. by rewrite split_flag.
  - cbn [app Js.splitRuns_go]. destruct (C x).
    + destruct b; [by apply IH|].
      change (rev cur :: Js.splitRuns_go C true [] (s1 ++ c :: s2))
        with ([rev cur] ++ Js.splitRuns_go C true [] (s1 ++ c :: s2)).
      change (rev cur :: Js.splitRuns_go C true [] s1)
        with ([rev cur] ++ Js.splitRuns_go C true [] s1).
      rewrite !List.filter_app, IH by done. by rewrite app_assoc.
    + by apply IH.
Qed.

Lemma tokenize_app_separator (c : N) (s1 s2 : jsstring) :
  latin1 (s1 ++ c :: s2) ->
  isTokenChar (Js.lowerUnit c) = false ->
  tokenize (s1 ++ c :: s2) = tokenize s1 ++ tokenize s2.
Proof.
  intros _ Hc. rewrite !tokenize_direct. unfold Js.toLowerCase, Js.splitRuns.
  rewrite map_app. cbn [map].
  apply split_app_separator; [by rewrite Hc | done].
Qed.

(** Each piece of a split is a stretch of the text. *)
Lemma split_pieces_infix (C : N -> bool) (s : jsstring) :
  forall (b : bool) (cur : jsstring),
    (b = true -> cur = []) ->
    Forall (fun p => exists a z, rev cur ++ s = a ++ p ++ z)
      (Js.splitRuns_go C b cur s).
Proof.
  induction s as [|c s IH]; intros b cur Hb; cbn [Js.splitRuns_go].
  - constructor; [|constructor]. exists [], []. by rewrite !app_nil_r.
  - assert (Hrest : Forall (fun p => exists a z, rev cur ++ c :: s = a ++ p ++ z)
                      (Js.splitRuns_go C true [] s)).
    { eapply Forall_impl; [apply (IH true []); done|]. cbv beta.
      intros p (a & z & E). cbn [rev app] in E.
      exists (rev cur ++ c :: a), z. rewrite E. by rewrite <- app_assoc. }
    destruct (C c).
    + destruct b.
      * by rewrite (Hb eq_refl) in *.
      * constructor; [|exact Hrest]. exists [], (c :: s). reflexivity.
    + eapply Forall_impl; [apply (IH false (c :: cur)); done|]. cbv beta.
      intros p (a & z & E). exists a, z. rewrite <- E.
      cbn [rev]. by rewrite <- app_assoc.
Qed.

Lemma startsWith_app (p z : jsstring) : Js.startsWith (p ++ z) p = true.
Proof.
  induction p as [|c p IH]; [apply startsWith_nil|].
  cbn [app Js.startsWith]. by rewrite N.eqb_refl, IH.
Qed.

Lemma includes_infix (a p z : jsstring) : Js.includes (a ++ p ++ z) p = true.
Proof.
  induction a as [|c a IH].
  - cbn [app]. pose proof (startsWith_app p z) as H.
    destruct (p ++ z); cbn [Js.includes]; by rewrite H.
  - cbn [app Js.includes]. rewrite IH. apply orb_true_r.
Qed.

Lemma tokenize_includes (text : jsstring) :
  Forall (fun token => Js.includes (Js.toLowerCase text) token = true)
    (tokenize text).
Proof.
  rewrite tokenize_direct. unfold Js.splitRuns.
  eapply Forall_impl;
    [apply (filter_Forall _ _ _
              (split_pieces_infix nonToken (Js.toLowerCase text) false []
                 ltac:(done)))|].
  cbv beta. intros p [(a & z & E) _]. cbn [rev app] in E. rewrite E.
  apply includes_infix.
Qed.

End ScannersMore.

(** ** The tables and the tokenizer *)

Lemma stop_word_list :
  Forall (fun t => keywordLookup t = None) (elements STOP_WORDS).
Proof. apply (bool_decide_unpack _). vm_compute. reflexivity. Qed.

Lemma stop_word_no_keyword (t : jsstring) :
  t ∈ STOP_WORDS -> keywordLookup t = None.
Proof.
  intros Ht. pose proof stop_word_list as H. rewrite Forall_forall in H.
  apply H. by apply elem_of_elements.
Qed.

Lemma detectCategoryBoosts_removeStopWords (T : list jsstring) :
  detectCategoryBoosts (removeStopWords T) = detectCategoryBoosts T.
Proof.
  unfold detectCategoryBoosts, removeStopWords. generalize (∅ : gmap BoostKey Z).
  induction T as [|t T IH]; intros boosts; [reflexivity|].
  cbn [List.filter fold_left].
  destruct (bool_decide (t ∈ STOP_WORDS)) eqn:Hs; cbn [negb].
  - apply bool_decide_eq_true in Hs.
    rewrite (stop_word_no_keyword t Hs). apply IH.
  - cbn [fold_left]. apply IH.
Qed.

(** ** Arrays, sets and maps of the host *)

Lemma arrayIncludes_elem {A : Type} `{EqDecision A} (a : list A) (x : A) :
  Js.arrayIncludes a x = true <-> x ∈ a.
Proof.
  unfold Js.arrayIncludes. rewrite existsb_exists. split.
  - intros (y & Hy & E). apply bool_decide_eq_true in E. subst y.
    by apply list_elem_of_In.
  - intros Hx. exists x. split; [by apply list_elem_of_In|].
    by apply bool_decide_eq_true.
Qed.

Lemma arrayIncludes_not_elem {A : Type} `{EqDecision A} (a : list A) (x : A) :
  Js.arrayIncludes a x = false <-> x ∉ a.
Proof.
  rewrite <- arrayIncludes_elem. destruct (Js.arrayIncludes a x); split;
    try done.
Qed.

Lemma setOf_snoc {A : Type} `{EqDecision A} (a : list A) (x : A) :
  Js.setOf (a ++ [x])
  = if Js.arrayIncludes (Js.setOf a) x then Js.setOf a else Js.setOf a ++ [x].
Proof. unfold Js.setOf. by rewrite fold_left_app. Qed.

Lemma setOf_elem {A : Type} `{EqDecision A} (a : list A) (x : A) :
  x ∈ Js.setOf a <-> x ∈ a.
Proof.
  induction a as [|y a IH] using rev_ind; [reflexivity|].
  rewrite setOf_snoc, elem_of_app, list_elem_of_singleton.
  destruct (Js.arrayIncludes (Js.setOf a) y) eqn:E.
  - apply arrayIncludes_elem in E. rewrite IH in *.
    split; [tauto|]. intros [?| ->]; [done | by apply IH].
  - rewrite elem_of_app, list_elem_of_singleton, IH. tauto.
Qed.

Lemma setOf_NoDup {A : Type} `{EqDecision A} (a : list A) : NoDup (Js.setOf a).
Proof.
  induction a as [|y a IH] using rev_ind; [constructor|].
  rewrite setOf_snoc. destruct (Js.arrayIncludes (Js.setOf a) y) eqn:E; [done|].
  apply arrayIncludes_not_elem in E.
  apply NoDup_app. split; [done|]. split; [|apply NoDup_singleton].
  intros x Hx Hy. apply list_elem_of_singleton in Hy. by subst.
Qed.

Section HostMap.
Context {K V : Type} `{EqDecision K}.

Lemma mapGet_mapSet (m : list (K * V)) (k k' : K) (v : V) :
  Js.mapGet (Js.mapSet m k v) k'
  = if decide (k = k') then Some v else Js.mapGet m k'.
Proof.
  induction m as [|[k0 v0] m IH]; cbn [Js.mapSet Js.mapGet].
  - destruct (decide (k = k')); reflexivity.
  - destruct (decide (k0 = k)) as [->|Hne]; cbn [Js.mapGet].
    + destruct (decide (k = k')); reflexivity.
    + rewrite IH. destruct (decide (k0 = k')) as [->|]; [|reflexivity].
      destruct (decide (k = k')); [congruence | reflexivity].
Qed.

Lemma mapGet_keys (m : list (K * V)) (k : K) :
  is_Some (Js.mapGet m k) <-> k ∈ map fst m.
Proof.
  induction m as [|[k0 v0] m IH]; cbn [Js.mapGet map fst].
  - split; [by intros [? ?] | by intros ?%elem_of_nil].
  - rewrite elem_of_cons. destruct (decide (k0 = k)) as [->|Hne].
    + split; [by left | by eexists].
    + rewrite IH. split; [by right | by intros [?|?]].
Qed.

Lemma mapSet_keys (m : list (K * V)) (k : K) (v : V) :
  map fst (Js.mapSet m k v)
  = if Js.arrayIncludes (map fst m) k then map fst m else map fst m ++ [k].
Proof.
  induction m as [|[k0 v0] m IH]; [reflexivity|].
  cbn [Js.mapSet map fst]. unfold Js.arrayIncludes in *. cbn [existsb].
  destruct (decide (k0 = k)) as [->|Hne].
  - by rewrite bool_decide_eq_true_2.
  - rewrite bool_decide_eq_false_2 by done. cbn [orb map fst]. rewrite IH.
    by destruct (existsb _ _).
Qed.

Lemma mapGet_elem (m : list (K * V)) (k : K) (v : V) :
  NoDup (map fst m) -> ((k, v) ∈ m <-> Js.mapGet m k = Some v).
Proof.
  induction m as [|[k0 v0] m IH]; cbn [map fst Js.mapGet]; intros Hnd.
  - split; [by intros ?%elem_of_nil | done].
  - apply NoDup_cons in Hnd as [Hk0 Hnd]. rewrite elem_of_cons, (IH Hnd).
    destruct (decide (k0 = k)) as [->|Hne].
    + split; [|intros [= ->]; by left].
      intros [[= ->]|Hg]; [done|]. exfalso. apply Hk0.
      apply mapGet_keys. by eexists.
    + split; [|by right]. intros [[= ? ?]|?]; [congruence | done].
Qed.

(** Replacing the value of a key by a longer list, or adding the key with a
    one-element list, adds that element to the union of the values. *)
Lemma mapSet_concat {X : Type} (m : list (K * list X)) (k : K) (x : X) :
  concat (map snd (Js.mapSet m k (default [] (Js.mapGet m k) ++ [x])))
  ≡ₚ concat (map snd m) ++ [x].
Proof.
  induction m as [|[k0 l0] m IH]; [reflexivity|].
  cbn [Js.mapSet Js.mapGet]. destruct (decide (k0 = k)) as [->|Hne].
  - cbn [map snd concat from_option]. unfold Datatypes.id.
    rewrite <- !app_assoc. apply Permutation_app_head, Permutation_app_comm.
  - cbn [map snd concat]. rewrite IH. by rewrite app_assoc.
Qed.

End HostMap.

(** [split(",")] on a text made of comma-free words. *)
Lemma splitOn_word (sep : N) (w rest cur : jsstring) :
  Forall (fun c => c <> sep) w ->
  Js.splitOn_go sep cur (w ++ rest) = Js.splitOn_go sep (rev w ++ cur) rest.
Proof.
  intros Hw. revert cur.
  induction Hw as [|c w Hc Hw IH]; intros cur; [reflexivity|].
  cbn [app Js.splitOn_go]. destruct (N.eqb_spec c sep); [done|].
  rewrite IH. cbn [rev]. by rewrite <- app_assoc.
Qed.

(** [trimEnd] removes a suffix of white space and leaves a string that does
    not end with white space. *)
Lemma trimEnd_split (s : jsstring) :
  exists w, s = Js.trimEnd s ++ w /\ Forall (fun c => Js.isWhiteSpace c = true) w.
Proof.
  unfold Js.trimEnd. destruct (trimStart_split (rev s)) as (w & E & Hw).
  exists (rev w). split; [|by apply Forall_rev].
  rewrite <- rev_app_distr, <- E. by rewrite rev_involutive.
Qed.

Lemma trimEnd_last (s : jsstring) (c : N) :
  last (Js.trimEnd s) = Some c -> Js.isWhiteSpace c = false.
Proof.
  unfold Js.trimEnd. intros Hl.
  pose proof (proj1 (trimStart_fixed _) (trimStart_idem (rev s))) as H.
  destruct (Js.trimStart (rev s)) as [|d r]; [discriminate|].
  cbn [rev] in Hl. rewrite last_snoc in Hl. by inversion Hl; subst.
Qed.

(** ** Categories and the corpus *)

Lemma isValidCategory_iff (s : jsstring) :
  isValidCategory s = true <-> exists c, categoryName c = s.
Proof.
  unfold isValidCategory. rewrite arrayIncludes_elem, list_elem_of_fmap.
  split.
  - intros (c & -> & _). by exists c.
  - intros (c & <-). exists c. split; [reflexivity|].
    destruct c; apply (bool_decide_unpack _); vm_compute; reflexivity.
Qed.

Lemma categoryName_inj (c1 c2 : PrincipleCategory) :
  categoryName c1 = categoryName c2 -> c1 = c2.
Proof. destruct c1, c2; intros H; try reflexivity; vm_compute in H; discriminate H. Qed.

Lemma categoryName_plain (c : PrincipleCategory) :
  categoryName c <> []
  /\ Forall (fun u => u <> 44) (categoryName c)
  /\ Js.trim (categoryName c) = categoryName c
  /\ Js.trim (32 :: categoryName c) = categoryName c.
Proof.
  destruct c; (split; [vm_compute; discriminate|]);
    (split; [apply (bool_decide_unpack _); vm_compute; reflexivity|]);
    split; vm_compute; reflexivity.
Qed.

Lemma filterByCategory_elem (s : jsstring) (P : CleanCodePrinciple) :
  P ∈ filterByCategory s <-> P ∈ PRINCIPLES /\ categoryName (category P) = s.
Proof.
  unfold filterByCategory.
  rewrite !list_elem_of_In, filter_In, bool_decide_eq_true. tauto.
Qed.

Lemma category_inhabited (c : PrincipleCategory) :
  exists P, P ∈ PRINCIPLES /\ category P = c.
Proof.
  assert (H : head (filterByCategory (categoryName c)) <> None).
  { destruct c; vm_compute; discriminate. }
  destruct (filterByCategory (categoryName c)) as [|P l] eqn:E; [done|].
  exists P. assert (HP : P ∈ filterByCategory (categoryName c)).
  { rewrite E. by left. }
  apply filterByCategory_elem in HP as [HP Hc]. split; [exact HP|].
  by apply categoryName_inj.
Qed.

(** ** The focus categories of the review prompt *)

Lemma default_focus_valid :
  Forall (fun s => isValidCategory s = true) DEFAULT_FOCUS_CATEGORIES.
Proof. apply (bool_decide_unpack _). vm_compute. reflexivity. Qed.

Lemma parseFocusCategories_cases (raw : option jsstring) :
  parseFocusCategories raw = DEFAULT_FOCUS_CATEGORIES
  \/ exists r,
       raw = Some r
       /\ parseFocusCategories raw
          = List.filter isValidCategory (map Js.trim (Js.splitOn 44 r))
       /\ parseFocusCategories raw <> [].
Proof.
  destruct raw as [[|c r]|]; [by left| |by left].
  cbn [parseFocusCategories].
  destruct (List.filter isValidCategory (map Js.trim (Js.splitOn 44 (c :: r))))
    as [|x l] eqn:E; [by left|].
  right. exists (c :: r). by rewrite E.
Qed.

Lemma splitOn_join (n : jsstring) (ns : list jsstring) :
  Forall (Forall (fun u => u <> 44)) (n :: ns) ->
  forall cur,
    Js.splitOn_go 44 cur (Js.join [44; 32] (n :: ns))
    = (rev cur ++ n) :: map (fun m => 32 :: m) ns.
Proof.
  revert n. induction ns as [|m ns IH]; intros n Hall cur.
  - cbn [Js.join map]. rewrite <- (app_nil_r n) at 1.
    rewrite splitOn_word by (by inversion Hall).
    cbn [Js.splitOn_go]. by rewrite rev_app_distr, rev_involutive.
  - change (Js.join [44; 32] (n :: m :: ns))
      with (n ++ 44 :: 32 :: Js.join [44; 32] (m :: ns)).
    inversion Hall as [|? ? Hn Hrest]; subst.
    rewrite splitOn_word by done. cbn [Js.splitOn_go].
    change (44 =? 44) with true. change (32 =? 44) with false. cbv iota.
    rewrite rev_app_distr, rev_involutive. f_equal.
    rewrite (IH m Hrest [32]). reflexivity.
Qed.

(** ** Grouping by category *)

Section Grouping.

Local Abbreviation ofCategory c :=
  (List.filter (fun p : CleanCodePrinciple => bool_decide (category p = c))).

Lemma groupByCategory_snoc (ps : list CleanCodePrinciple) (p : CleanCodePrinciple) :
  groupByCategory (ps ++ [p])
  = Js.mapSet (groupByCategory ps) (category p)
      (default [] (Js.mapGet (groupByCategory ps) (category p)) ++ [p]).
Proof. unfold groupByCategory. by rewrite fold_left_app. Qed.

Lemma groupByCategory_get (ps : list CleanCodePrinciple) (c : PrincipleCategory) :
  Js.mapGet (groupByCategory ps) c
  = match ofCategory c ps with
    | [] => None
    | l => Some l
    end.
Proof.
  induction ps as [|p ps IH] using rev_ind; [reflexivity|].
  rewrite groupByCategory_snoc, mapGet_mapSet, List.filter_app.
  cbn [List.filter]. destruct (decide (category p = c)) as [->|Hne].
  - rewrite bool_decide_eq_true_2 by reflexivity. rewrite IH.
    destruct (ofCategory _ ps); reflexivity.
  - rewrite bool_decide_eq_false_2 by exact Hne. by rewrite app_nil_r.
Qed.

Lemma groupByCategory_keys (ps : list CleanCodePrinciple) :
  map fst (groupByCategory ps) = Js.setOf (map category ps).
Proof.
  induction ps as [|p ps IH] using rev_ind; [reflexivity|].
  rewrite groupByCategory_snoc, mapSet_keys, map_app. cbn [map].
  by rewrite setOf_snoc, IH.
Qed.

Lemma groupByCategory_concat (ps : list CleanCodePrinciple) :
  concat (map snd (groupByCategory ps)) ≡ₚ ps.
Proof.
  induction ps as [|p ps IH] using rev_ind; [reflexivity|].
  rewrite groupByCategory_snoc, mapSet_concat. by rewrite IH.
Qed.

End Grouping.

(** * Further results on the search core *)

(** X1. Scores are never negative.  A query score lies between 0 and
    130 + 70 per tag (the id branch gives 100, below that bound); a token
    score with boosts detected from any token list lies between 0 and that
    bound per token plus 15 per token of the boost list. *)
Theorem scores_are_bounded (P : CleanCodePrinciple) (Q : jsstring)
    (T T' : list jsstring) :
  (0 <= scorePrincipleByQuery P Q <= 130 + 70 * Z.of_nat (length (tags P)))%Z
  /\ (0 <= scorePrincipleByTokens P T (detectCategoryBoosts T')
      <= Z.of_nat (length T) * (130 + 70 * Z.of_nat (length (tags P)))
         + 15 * Z.of_nat (length T'))%Z.
Proof.
  assert (Hq : forall Q', (0 <= scorePrincipleByQuery P Q'
                           <= 130 + 70 * Z.of_nat (length (tags P)))%Z).
  { intros Q'. split; [apply scorePrincipleByQuery_nonneg|].
    destruct (decide (id P = normalize Q')) as [Hid|Hid].
    - rewrite scorePrincipleByQuery_id by exact Hid. lia.
    - rewrite scorePrincipleByQuery_other by exact Hid.
      pose proof (tag_sum_le (normalize Q') (tags P)).
      unfold nameContribution, descriptionContribution, categoryContribution.
      destruct (Js.includes (Js.toLowerCase (name P)) (normalize Q'));
        destruct (Js.includes (Js.toLowerCase (description P)) (normalize Q'));
        destruct (Js.includes (categoryName (category P)) (normalize Q')); lia. }
  split; [apply Hq|].
  rewrite scorePrincipleByTokens_sum, detectCategoryBoosts_lookup.
  set (k := Category (category P)).
  set (n := length (List.filter
                      (fun t => bool_decide (keywordLookup t = Some k)) T')).
  assert (Hn : (n <= length T')%nat) by apply filter_length_le.
  assert (Hs : (0 <= sumZ (map (scorePrincipleByQuery P) T)
                <= Z.of_nat (length T)
                   * (130 + 70 * Z.of_nat (length (tags P))))%Z).
  { clear -Hq. induction T as [|t T IH]; cbn [map sumZ foldr length]; [lia|].
    fold (sumZ (map (scorePrincipleByQuery P) T)). specialize (Hq t). lia. }
  destruct (decide (n = 0%nat)); cbn [from_option]; unfold Datatypes.id; lia.
Qed.

(** X2. On queries of Latin-1 code units the scorer is insensitive to
    case and to the white space around the query: the lowercased query, the
    normalized query and the query padded with Latin-1 white space score
    like the query itself, so the direct search returns the same ranking for
    them. *)
Theorem query_is_read_normalized (P : CleanCodePrinciple)
    (Q w1 w2 : jsstring) :
  latin1 Q -> latin1 w1 -> latin1 w2 ->
  Forall (fun c => Js.isWhiteSpace c = true) w1 ->
  Forall (fun c => Js.isWhiteSpace c = true) w2 ->
  scorePrincipleByQuery P (w1 ++ Q ++ w2) = scorePrincipleByQuery P Q
  /\ scorePrincipleByQuery P (Js.toLowerCase Q) = scorePrincipleByQuery P Q
  /\ scorePrincipleByQuery P (Js.trim (Js.toLowerCase Q))
     = scorePrincipleByQuery P Q
  /\ searchPrinciple (w1 ++ Q ++ w2) = searchPrinciple Q
  /\ searchPrinciple (Js.toLowerCase Q) = searchPrinciple Q.
Proof.
  intros LQ L1 L2 H1 H2.
  split; [by apply scorePrincipleByQuery_normalize, normalize_padded|].
  split; [by apply scorePrincipleByQuery_normalize, normalize_lower|].
  split; [by apply scorePrincipleByQuery_normalize, normalize_idem|].
  split; apply rankPrinciples_ext; intros p;
    apply scorePrincipleByQuery_normalize;
    [by apply normalize_padded | by apply normalize_lower].
Qed.

Lemma query_is_read_normalized_witness :
  scorePrincipleByQuery
    {| id := js "single-responsibility-principle";
       name := js "Single Responsibility Principle"; category := solid;
       description := js "One reason to change."; tags := map js ["srp"] |}
    ([32; 9] ++ js "SRP" ++ [10])
  = scorePrincipleByQuery
      {| id := js "single-responsibility-principle";
         name := js "Single Responsibility Principle"; category := solid;
         description := js "One reason to change."; tags := map js ["srp"] |}
      (js "SRP").
Proof.
  refine (proj1 (query_is_read_normalized _ (js "SRP") [32; 9] [10]
                   _ _ _ _ _)).
  - apply (bool_decide_unpack _). vm_compute. exact I.
  - apply (bool_decide_unpack _). vm_compute. exact I.
  - apply (bool_decide_unpack _). vm_compute. exact I.
  - repeat constructor.
  - repeat constructor.
Defined.

(** X3. A principle scores 0 against a query exactly when the normalized
    query is not its id, is contained neither in its lowercased name or
    description nor in its category, and neither contains any of its tags
    nor is contained in one.  These are the principles the direct search
    leaves out. *)
Theorem zero_score_iff_nothing_matches (P : CleanCodePrinciple) (Q : jsstring) :
  let q := Js.trim (Js.toLowerCase Q) in
  (scorePrincipleByQuery P Q = 0%Z
   <-> id P <> q
       /\ Js.includes (Js.toLowerCase (name P)) q = false
       /\ Forall
            (fun tag => Js.includes tag q = false /\ Js.includes q tag = false)
            (tags P)
       /\ Js.includes (Js.toLowerCase (description P)) q = false
       /\ Js.includes (categoryName (category P)) q = false)
  /\ (P ∈ searchPrinciple Q
      <-> P ∈ PRINCIPLES /\ scorePrincipleByQuery P Q <> 0%Z).
Proof.
  intros q. fold (normalize Q) in q. split.
  - destruct (decide (id P = q)) as [Hid|Hid].
    + rewrite scorePrincipleByQuery_id by exact Hid.
      split; [lia | by intros [? _]].
    + rewrite scorePrincipleByQuery_other by exact Hid. fold q.
      rewrite <- tag_sum_zero.
      pose proof (tag_sum_nonneg q (tags P)).
      unfold nameContribution, descriptionContribution, categoryContribution.
      destruct (Js.includes (Js.toLowerCase (name P)) q);
        destruct (Js.includes (Js.toLowerCase (description P)) q);
        destruct (Js.includes (categoryName (category P)) q);
        split; try lia; try (by intros (_ & ? & _ & ? & ?));
        intros Hz; repeat split; try done; lia.
  - unfold searchPrinciple. rewrite rankPrinciples_elem.
    pose proof (scorePrincipleByQuery_nonneg P Q). split; intros [? ?]; split;
      try done; lia.
Qed.

(** X4. The order of the tokens plays no role on the context path: the
    token score is the same for a permuted token list, and two contexts whose
    token lists are permutations of each other get the same ranking. *)
Theorem token_order_is_irrelevant (T T' : list jsstring) :
  T ≡ₚ T' ->
  (forall (P : CleanCodePrinciple) (B : gmap BoostKey Z),
      scorePrincipleByTokens P T B = scorePrincipleByTokens P T' B)
  /\ (forall context context' : jsstring,
         removeStopWords (tokenize context) = T ->
         removeStopWords (tokenize context') = T' ->
         searchByContext context = searchByContext context').
Proof.
  intros H.
  assert (Hs : forall P B,
             scorePrincipleByTokens P T B = scorePrincipleByTokens P T' B).
  { intros P B. rewrite !scorePrincipleByTokens_sum.
    by rewrite (sumZ_perm _ _ (Permutation_map (scorePrincipleByQuery P) H)). }
  split; [exact Hs|].
  intros context context' E E'. unfold searchByContext. rewrite E, E'.
  cbv zeta. rewrite (detectCategoryBoosts_perm T T' H).
  apply rankPrinciples_ext. intros p. apply Hs.
Qed.

Lemma token_order_is_irrelevant_witness :
  removeStopWords (tokenize (js "nested function"))
    ≡ₚ removeStopWords (tokenize (js "a Function, nested!"))
  /\ searchByContext (js "nested function")
     = searchByContext (js "a Function, nested!").
Proof.
  assert (H : removeStopWords (tokenize (js "nested function"))
                ≡ₚ removeStopWords (tokenize (js "a Function, nested!"))).
  { vm_compute. apply perm_swap. }
  split; [exact H|].
  exact (proj2 (token_order_is_irrelevant _ _ H) _ _ eq_refl eq_refl).
Defined.

(** X5. Ranking is idempotent and never lengthens: ranking a ranked list
    again with the same scoring function changes nothing. *)
Theorem rankPrinciples_idempotent {T : Type} (principles : list T)
    (scoreFn : T -> Z) :
  rankPrinciples (rankPrinciples principles scoreFn) scoreFn
  = rankPrinciples principles scoreFn
  /\ (length (rankPrinciples principles scoreFn) <= length principles)%nat.
Proof. split; [apply rankPrinciples_idem | apply rankPrinciples_length]. Qed.

Lemma windows_of_sorted {A : Type} (R : A -> A -> Prop) (l : list A)
    (i j : nat) :
  StronglySorted R l ->
  Js.slice l 0 i ++ Js.slice l i (i + S j) = take (i + S j) l
  /\ (length (Js.slice l 0 i) <= i)%nat
  /\ (length (Js.slice l i (i + S j)) <= S j)%nat
  /\ (Js.slice l i (i + S j) = [] <-> (length l <= i)%nat)
  /\ (forall a b,
         a ∈ Js.slice l 0 i ++ Js.slice l i (i + S j) ->
         b ∈ drop (i + S j) l -> R a b)
  /\ (forall a b, a ∈ Js.slice l 0 i -> b ∈ Js.slice l i (i + S j) -> R a b).
Proof.
  intros Hs. pose proof (slice_take_drop l i (S j)) as Happ.
  split; [exact Happ|]. unfold Js.slice in *. rewrite drop_0, Nat.sub_0_r in *.
  replace (i + S j - i)%nat with (S j) in * by lia.
  split; [rewrite length_take; lia|]. split; [rewrite length_take; lia|].
  split; [|split].
  - destruct (drop i l) as [|x r] eqn:E.
    + split; [|done]. intros _.
      apply (f_equal length) in E. rewrite length_drop in E. simpl in E. lia.
    + split; [done|]. intros Hl. rewrite drop_ge in E by exact Hl. done.
  - intros a b Ha Hb. rewrite Happ in Ha. by apply (sorted_take_drop R l (i + S j)).
  - intros a b Ha Hb. apply (sorted_take_drop R l i Hs); [exact Ha|].
    rewrite <- (take_drop (S j) (drop i l)). apply elem_of_app. by left.
Qed.

(** X6. Both search tools show a prefix of the ranking: the detailed
    results followed by the remaining ones are its first 10 (context search:
    8) entries, at most 3 of them detailed; there are remaining results
    exactly when the ranking has more than 3 entries; and no principle that
    is left out, or listed later, scores higher than one listed before it. *)
Theorem tools_show_the_top_of_the_ranking :
  (forall query : jsstring,
      let score := fun P => scorePrincipleByQuery P query in
      let detailed := searchPrinciple_detailed query in
      let remaining := searchPrinciple_remaining query in
      detailed ++ remaining = take 10 (searchPrinciple query)
      /\ (length detailed <= 3)%nat
      /\ (length remaining <= 7)%nat
      /\ (remaining = [] <-> (length (searchPrinciple query) <= 3)%nat)
      /\ (forall a b,
             a ∈ detailed ++ remaining ->
             b ∈ drop 10 (searchPrinciple query) ->
             (score a >= score b)%Z)
      /\ (forall a b, a ∈ detailed -> b ∈ remaining -> (score a >= score b)%Z))
  /\ (forall context : jsstring,
         let tokens := removeStopWords (tokenize context) in
         let score :=
           fun P => scorePrincipleByTokens P tokens (detectCategoryBoosts tokens) in
         let detailed := searchByContext_detailed context in
         let remaining := searchByContext_remaining context in
         detailed ++ remaining = take 8 (searchByContext context)
         /\ (length detailed <= 3)%nat
         /\ (length remaining <= 5)%nat
         /\ (remaining = [] <-> (length (searchByContext context) <= 3)%nat)
         /\ (forall a b,
                a ∈ detailed ++ remaining ->
                b ∈ drop 8 (searchByContext context) ->
                (score a >= score b)%Z)
         /\ (forall a b,
                a ∈ detailed -> b ∈ remaining -> (score a >= score b)%Z)).
Proof.
  split.
  - intros query score detailed remaining.
    exact (windows_of_sorted _ _ 3 6 (rankPrinciples_sorted score PRINCIPLES)).
  - intros context tokens score detailed remaining.
    exact (windows_of_sorted _ _ 3 4 (rankPrinciples_sorted score PRINCIPLES)).
Qed.

Lemma tools_show_the_top_of_the_ranking_witness :
  length (searchPrinciple (js "")) = 63%nat
  /\ searchPrinciple_detailed (js "") ++ searchPrinciple_remaining (js "")
     = take 10 (searchPrinciple (js "")).
Proof.
  split; [vm_compute; reflexivity|].
  exact (proj1 (proj1 tools_show_the_top_of_the_ranking (js ""))).
Defined.

(** X7. Searching for the id of a principle of the corpus returns that
    principle first, the same principle that the lookup by id finds. *)
Theorem search_by_id_finds_the_principle_first :
  Forall
    (fun P =>
       head (searchPrinciple (id P)) = Some P
       /\ findPrincipleById (id P) = Some P)
    PRINCIPLES.
Proof. apply (bool_decide_unpack _). vm_cast_no_check I. Qed.

(** X8. The tokens of a text are the pieces of the lowercased text between
    its runs of characters other than a-z, 0-9 and the hyphen that have more
    than one code unit: replacing the runs by a space and splitting at white
    space is the same as splitting at the runs. *)
Theorem tokenize_splits_at_non_token_runs (text : jsstring) :
  tokenize text
  = List.filter (fun piece => (1 <? length piece)%nat)
      (Js.splitRuns (fun c => negb (isTokenChar c)) (Js.toLowerCase text)).
Proof. apply tokenize_direct. Qed.

(** X9. On Latin-1 texts tokenizing distributes over a separator: for a
    code unit that is not a token character after lowercasing (anything but
    A-Z, a-z, 0-9 and the hyphen: a space, a comma, ...), the tokens of two
    texts joined by it are the tokens of the first followed by the tokens of
    the second, also after stop-word removal. *)
Theorem tokenize_distributes_over_separators (c : N) (s1 s2 : jsstring) :
  latin1 (s1 ++ c :: s2) ->
  isTokenChar (Js.lowerUnit c) = false ->
  tokenize (s1 ++ c :: s2) = tokenize s1 ++ tokenize s2
  /\ removeStopWords (tokenize (s1 ++ c :: s2))
     = removeStopWords (tokenize s1) ++ removeStopWords (tokenize s2).
Proof.
  intros HL Hc. rewrite (tokenize_app_separator c s1 s2 HL Hc).
  split; [reflexivity|]. unfold removeStopWords. apply List.filter_app.
Qed.

Lemma tokenize_distributes_over_separators_witness :
  tokenize (js "Keep it" ++ 44 :: js "small")
  = tokenize (js "Keep it") ++ tokenize (js "small").
Proof.
  refine (proj1 (tokenize_distributes_over_separators 44 (js "Keep it")
                   (js "small") _ _)).
  - apply (bool_decide_unpack _). vm_compute. exact I.
  - reflexivity.
Defined.

(** X10. The tokenizer invents nothing: every token is a stretch of the
    lowercased text. *)
Theorem tokens_occur_in_the_text (text : jsstring) :
  Forall (fun token => Js.includes (Js.toLowerCase text) token = true)
    (tokenize text)
  /\ Forall (fun token => Js.includes (Js.toLowerCase text) token = true)
       (removeStopWords (tokenize text)).
Proof.
  pose proof (tokenize_includes text) as H. split; [exact H|].
  unfold removeStopWords. eapply Forall_impl; [apply filter_Forall, H|].
  cbv beta. tauto.
Qed.

(** X11. The boost map counts the keyword hits: the entry of a key is the
    number of tokens that the keyword table sends to it, and a key that no
    token hits has no entry; no entry is 0 or negative. *)
Theorem detectCategoryBoosts_counts_hits (T : list jsstring) (k : BoostKey) :
  let hits :=
    length (List.filter (fun t => bool_decide (keywordLookup t = Some k)) T) in
  detectCategoryBoosts T !! k
  = (if decide (hits = 0%nat) then None else Some (Z.of_nat hits))
  /\ default 0%Z (detectCategoryBoosts T !! k) = Z.of_nat hits
  /\ (forall n : Z, detectCategoryBoosts T !! k = Some n -> (1 <= n)%Z).
Proof.
  intros hits. pose proof (detectCategoryBoosts_lookup k T) as H.
  fold hits in H. rewrite H. split; [reflexivity|].
  destruct (decide (hits = 0%nat)) as [E|E].
  - split; [cbn [from_option]; lia | discriminate].
  - split; [reflexivity|]. intros n [= <-]. lia.
Qed.

(** X12. No stop word is a keyword, so removing the stop words never
    changes the boosts. *)
Theorem stop_words_never_boost (T : list jsstring) :
  detectCategoryBoosts (removeStopWords T) = detectCategoryBoosts T
  /\ Forall (fun t => keywordLookup t = None) (elements STOP_WORDS).
Proof.
  split; [apply detectCategoryBoosts_removeStopWords | apply stop_word_list].
Qed.

(** X13. Every keyword of the table can be produced by the tokenizer: a
    text that consists of a keyword alone is tokenized into that keyword,
    which the stop-word filter keeps, and so boosts the category the table
    gives. *)
Theorem keywords_survive_tokenization :
  map_Forall
    (fun keyword c =>
       removeStopWords (tokenize keyword) = [keyword]
       /\ detectCategoryBoosts (removeStopWords (tokenize keyword))
          = {[ Category c := 1%Z ]})
    CATEGORY_KEYWORDS.
Proof. apply (bool_decide_unpack _). vm_compute. reflexivity. Qed.

(** X14. The lookup by id is exact on the corpus: ids are unique, every
    principle is found under its own id, whatever is found has the id asked
    for, and nothing is found exactly when no principle has that id. *)
Theorem findPrincipleById_is_exact :
  NoDup (map id PRINCIPLES)
  /\ Forall (fun P => findPrincipleById (id P) = Some P) PRINCIPLES
  /\ (forall (i : jsstring) (P : CleanCodePrinciple),
         findPrincipleById i = Some P -> P ∈ PRINCIPLES /\ id P = i)
  /\ (forall i : jsstring,
         findPrincipleById i = None
         <-> forall P, P ∈ PRINCIPLES -> id P <> i).
Proof.
  split; [apply (bool_decide_unpack _); vm_compute; reflexivity|].
  split; [apply (bool_decide_unpack _); vm_compute; reflexivity|].
  unfold findPrincipleById, Js.find. split.
  - intros i P H. apply find_some in H as [HP Hi].
    apply bool_decide_eq_true in Hi. split; [by apply list_elem_of_In | exact Hi].
  - intros i. split.
    + intros H P HP Hid. apply list_elem_of_In in HP.
      pose proof (find_none _ _ H P HP) as Hn. cbv beta in Hn.
      apply bool_decide_eq_false in Hn. contradiction.
    + intros H.
      destruct (List.find (fun principle => bool_decide (id principle = i))
                  PRINCIPLES) as [P|] eqn:E; [|reflexivity].
      apply find_some in E as [HP Hi]. apply bool_decide_eq_true in Hi.
      exfalso. apply (H P); [by apply list_elem_of_In | exact Hi].
Qed.

Lemma findPrincipleById_is_exact_witness :
  id <$> findPrincipleById (js "law-of-demeter") = Some (js "law-of-demeter").
Proof.
  destruct (findPrincipleById (js "law-of-demeter")) as [P|] eqn:E.
  - cbn [fmap option_fmap option_map]. f_equal.
    exact (proj2 (proj1 (proj2 (proj2 findPrincipleById_is_exact)) _ _ E)).
  - vm_compute in E. discriminate E.
Defined.

(** X15. Filtering by category agrees with the category check: a string
    passes [isValidCategory] exactly when it is one of the thirteen category
    names, and exactly then the filter returns at least one principle; the
    filter returns the principles of that category and nothing else, and the
    thirteen filtered lists, in the order of [CATEGORIES], make up the
    corpus. *)
Theorem filterByCategory_partitions_the_corpus :
  (forall s : jsstring,
      (isValidCategory s = true <-> exists c, categoryName c = s)
      /\ (isValidCategory s = true <-> filterByCategory s <> []))
  /\ (forall (s : jsstring) (P : CleanCodePrinciple),
         P ∈ filterByCategory s
         <-> P ∈ PRINCIPLES /\ categoryName (category P) = s)
  /\ (forall c1 c2, categoryName c1 = categoryName c2 -> c1 = c2)
  /\ concat (map (fun c => filterByCategory (categoryName c)) CATEGORIES)
     = PRINCIPLES.
Proof.
  split; [|split; [apply filterByCategory_elem|split; [apply categoryName_inj|]]].
  - intros s. split; [apply isValidCategory_iff|].
    rewrite isValidCategory_iff. split.
    + intros [c <-]. destruct (category_inhabited c) as (P & HP & Hc).
      intros E. assert (H : P ∈ filterByCategory (categoryName c)).
      { apply filterByCategory_elem. by rewrite Hc. }
      rewrite E in H. by apply elem_of_nil in H.
    + intros H. destruct (filterByCategory s) as [|P l] eqn:E; [done|].
      assert (HP : P ∈ filterByCategory s) by (rewrite E; by left).
      apply filterByCategory_elem in HP as [_ HP]. by exists (category P).
  - apply (bool_decide_unpack _). vm_compute. reflexivity.
Qed.

(** X16. The list of all categories holds each of the thirteen category
    names once, in the order of [CATEGORIES]: every category has a principle,
    and a string is a valid category exactly when it is in that list. *)
Theorem getAllCategories_is_CATEGORIES :
  getAllCategories = map categoryName CATEGORIES
  /\ NoDup getAllCategories
  /\ (forall s : jsstring, isValidCategory s = true <-> s ∈ getAllCategories).
Proof.
  assert (E : getAllCategories = map categoryName CATEGORIES).
  { vm_compute. reflexivity. }
  split; [exact E|]. split; [apply setOf_NoDup|].
  intros s. rewrite E. apply arrayIncludes_elem.
Qed.

(** X17. The focus categories of a review are never empty and always
    valid.  An absent or empty argument gives the four default categories.
    Any other argument is split at its commas, each entry is trimmed and the
    entries that are category names are kept, in order and with repetitions:
    that list is the result when it is not empty, and the four defaults are
    the result when it is. *)
Theorem parseFocusCategories_is_valid_and_nonempty (raw : option jsstring) :
  parseFocusCategories raw <> []
  /\ Forall (fun s => isValidCategory s = true) (parseFocusCategories raw)
  /\ parseFocusCategories None = DEFAULT_FOCUS_CATEGORIES
  /\ parseFocusCategories (Some []) = DEFAULT_FOCUS_CATEGORIES
  /\ (forall r : jsstring,
         let parsed :=
           List.filter isValidCategory (map Js.trim (Js.splitOn 44 r)) in
         (parsed <> [] -> parseFocusCategories (Some r) = parsed)
         /\ (parsed = [] ->
             parseFocusCategories (Some r) = DEFAULT_FOCUS_CATEGORIES))
  /\ parseFocusCategories (Some (js " solid, bogus ,naming,,Solid,solid"))
     = map categoryName [solid; naming; solid].
Proof.
  assert (Hr : forall r : jsstring,
             let parsed :=
               List.filter isValidCategory (map Js.trim (Js.splitOn 44 r)) in
             (parsed <> [] -> parseFocusCategories (Some r) = parsed)
             /\ (parsed = [] ->
                 parseFocusCategories (Some r) = DEFAULT_FOCUS_CATEGORIES)).
  { intros [|c r] parsed.
    - split; [|reflexivity]. intros H. exfalso. apply H. reflexivity.
    - subst parsed. cbn [parseFocusCategories].
      destruct (List.filter isValidCategory
                  (map Js.trim (Js.splitOn 44 (c :: r)))) as [|x l].
      + split; [done | reflexivity].
      + split; [reflexivity | discriminate]. }
  assert (Hv : Forall (fun s => isValidCategory s = true)
                 (parseFocusCategories raw)
               /\ parseFocusCategories raw <> []).
  { destruct raw as [r|].
    - destruct (Hr r) as [H1 H2].
      destruct (List.filter isValidCategory (map Js.trim (Js.splitOn 44 r)))
        as [|x l] eqn:E.
      + rewrite (H2 eq_refl). split; [apply default_focus_valid|].
        vm_compute. discriminate.
      + rewrite H1 by discriminate. split; [|discriminate].
        rewrite <- E. eapply Forall_impl;
          [apply (filter_Forall isValidCategory (fun _ => True)), Forall_true;
           done|].
        cbv beta. tauto.
    - split; [apply default_focus_valid | vm_compute; discriminate]. }
  split; [apply Hv|]. split; [apply Hv|]. split; [reflexivity|].
  split; [reflexivity|]. split; [exact Hr|]. vm_compute. reflexivity.
Qed.

Lemma parseFocusCategories_is_valid_and_nonempty_witness :
  parseFocusCategories (Some (js "bogus, solid ,Naming"))
  = [categoryName solid]
  /\ parseFocusCategories (Some (js "bogus,Naming"))
     = DEFAULT_FOCUS_CATEGORIES.
Proof.
  split.
  - refine (eq_trans
              (proj1 (proj1 (proj2 (proj2 (proj2 (proj2
                 (parseFocusCategories_is_valid_and_nonempty None)))))
                 (js "bogus, solid ,Naming")) _) _).
    + vm_compute. discriminate.
    + vm_compute. reflexivity.
  - refine (proj2 (proj1 (proj2 (proj2 (proj2 (proj2
              (parseFocusCategories_is_valid_and_nonempty None)))))
              (js "bogus,Naming")) _).
    vm_compute. reflexivity.
Defined.

(** X18. Parsing undoes the listing that the prompt advertises: a
    non-empty list of categories written out with comma and space parses
    back into itself. *)
Theorem parseFocusCategories_roundtrip (cs : list PrincipleCategory) :
  cs <> [] ->
  parseFocusCategories (Some (Js.join (js ", ") (map categoryName cs)))
  = map categoryName cs.
Proof.
  intros Hne. destruct cs as [|c cs]; [done|]. clear Hne.
  change (js ", ") with [44; 32]. cbn [map].
  assert (Hall : Forall (Forall (fun u => u <> 44))
                   (categoryName c :: map categoryName cs)).
  { constructor; [apply categoryName_plain|].
    apply Forall_map, Forall_true. intros x. apply categoryName_plain. }
  pose proof (splitOn_join _ _ Hall []) as Hsplit. cbn [rev app] in Hsplit.
  assert (Hparsed :
            List.filter isValidCategory
              (map Js.trim
                 (Js.splitOn 44
                    (Js.join [44; 32] (categoryName c :: map categoryName cs))))
            = categoryName c :: map categoryName cs).
  { unfold Js.splitOn. rewrite Hsplit. cbn [map].
    rewrite (proj1 (proj2 (proj2 (categoryName_plain c)))).
    rewrite !map_map.
    rewrite (map_ext (fun x => Js.trim (32 :: categoryName x)) categoryName)
      by (intros x; apply categoryName_plain).
    apply (filter_all isValidCategory (categoryName c :: map categoryName cs)).
    constructor; [apply isValidCategory_iff; by eexists|].
    apply Forall_map, Forall_true. intros x. apply isValidCategory_iff.
    by eexists. }
  destruct (Js.join [44; 32] (categoryName c :: map categoryName cs))
    as [|u r] eqn:E.
  - vm_compute in Hparsed. discriminate Hparsed.
  - cbn [parseFocusCategories]. by rewrite Hparsed.
Qed.

Lemma parseFocusCategories_roundtrip_witness :
  parseFocusCategories (Some (js "solid, error-handling, naming"))
  = map categoryName [solid; error_handling; naming].
Proof.
  refine (parseFocusCategories_roundtrip [solid; error_handling; naming] _).
  discriminate.
Defined.

(** X19. A review prompt always has principles to cite: whatever the
    focus argument is, the relevant principles are the principles of the
    corpus whose category is among the parsed focus categories, and there is
    at least one of them. *)
Theorem relevantPrinciples_is_never_empty (focus_categories : option jsstring) :
  relevantPrinciples focus_categories <> []
  /\ (forall P : CleanCodePrinciple,
         P ∈ relevantPrinciples focus_categories
         <-> P ∈ PRINCIPLES
             /\ categoryName (category P)
                ∈ parseFocusCategories focus_categories).
Proof.
  assert (Hel : forall P : CleanCodePrinciple,
             P ∈ relevantPrinciples focus_categories
             <-> P ∈ PRINCIPLES
                 /\ categoryName (category P)
                    ∈ parseFocusCategories focus_categories).
  { intros P. unfold relevantPrinciples. cbv zeta.
    rewrite !list_elem_of_In, filter_In, arrayIncludes_elem.
    by rewrite list_elem_of_In. }
  split; [|exact Hel].
  destruct (parseFocusCategories_cases focus_categories) as [E|(r & _ & _ & Hne)].
  - intros Hnil.
    destruct (category_inhabited naming) as (P & HP & Hc).
    assert (H : P ∈ relevantPrinciples focus_categories).
    { apply Hel. split; [exact HP|]. rewrite E, Hc.
      apply (bool_decide_unpack _). vm_compute. reflexivity. }
    rewrite Hnil in H. by apply elem_of_nil in H.
  - intros Hnil.
    destruct (parseFocusCategories focus_categories) as [|s l] eqn:E; [done|].
    assert (Hs : isValidCategory s = true).
    { destruct (parseFocusCategories_cases focus_categories)
        as [E'|(r' & _ & E' & _)]; rewrite E in E'.
      - pose proof default_focus_valid as Hd. rewrite <- E' in Hd.
        by inversion Hd.
      - pose proof (filter_Forall isValidCategory (fun _ => True)
                      (map Js.trim (Js.splitOn 44 r'))
                      ltac:(by apply Forall_true)) as Hf.
        rewrite <- E' in Hf. inversion Hf as [|? ? [_ Hv] _]. exact Hv. }
    apply isValidCategory_iff in Hs as [c <-].
    destruct (category_inhabited c) as (P & HP & Hc).
    assert (H : P ∈ relevantPrinciples focus_categories).
    { apply Hel. split; [exact HP|]. rewrite Hc. by left. }
    rewrite Hnil in H. by apply elem_of_nil in H.
Qed.

(** X20. A description of at most [maxLength] code units is shown as it
    is.  A longer one is cut to its first [maxLength] code units, loses the
    white space at the end of that cut and gets three dots: what is shown
    before the dots is a prefix of the description that does not end in white
    space, and the whole has at most [maxLength + 3] code units. *)
Theorem truncateDescription_keeps_a_prefix (description : jsstring)
    (maxLength : nat) :
  ((length description <= maxLength)%nat ->
   truncateDescription description maxLength = description)
  /\ ((maxLength < length description)%nat ->
      exists kept w : jsstring,
        truncateDescription description maxLength = kept ++ js "..."
        /\ take maxLength description = kept ++ w
        /\ Forall (fun c => Js.isWhiteSpace c = true) w
        /\ (forall c, last kept = Some c -> Js.isWhiteSpace c = false)
        /\ (length (truncateDescription description maxLength)
            <= maxLength + 3)%nat).
Proof.
  unfold truncateDescription, Js.slice. rewrite drop_0, Nat.sub_0_r. split.
  - intros H. by rewrite (proj2 (Nat.leb_le _ _) H).
  - intros H. rewrite (proj2 (Nat.leb_gt _ _) H).
    destruct (trimEnd_split (take maxLength description)) as (w & E & Hw).
    exists (Js.trimEnd (take maxLength description)), w.
    split; [reflexivity|]. split; [exact E|]. split; [exact Hw|].
    split; [apply trimEnd_last|].
    apply (f_equal length) in E. rewrite length_app, length_take in E.
    rewrite length_app. change (length (js "...")) with 3%nat. lia.
Qed.

Lemma truncateDescription_keeps_a_prefix_witness :
  truncateDescription (js "Keep it small") 4 = js "Keep it small"
  \/ exists kept w : jsstring,
       truncateDescription (js "Keep it small") 5 = kept ++ js "..."
       /\ take 5 (js "Keep it small") = kept ++ w.
Proof.
  right.
  destruct (proj2 (truncateDescription_keeps_a_prefix (js "Keep it small") 5))
    as (kept & w & E1 & E2 & _).
  - vm_compute. lia.
  - exists kept, w. split; [exact E1 | exact E2].
Defined.

(** X21. Grouping by category keeps everything and keeps the order: the
    keys are the categories of the list, each once, in the order of their
    first occurrence; the group of a category is the list of the principles
    of that category in their original order, and it is never empty; the
    groups together are a permutation of the list.  For the corpus the keys
    come in the order of [CATEGORIES] and the groups, one after the other,
    are the corpus itself. *)
Theorem groupByCategory_keeps_order (principles : list CleanCodePrinciple) :
  let grouped := groupByCategory principles in
  map fst grouped = Js.setOf (map category principles)
  /\ NoDup (map fst grouped)
  /\ (forall (c : PrincipleCategory) (l : list CleanCodePrinciple),
         (c, l) ∈ grouped
         <-> l = List.filter (fun p => bool_decide (category p = c)) principles
             /\ l <> [])
  /\ concat (map snd grouped) ≡ₚ principles
  /\ map fst (groupByCategory PRINCIPLES) = CATEGORIES
  /\ concat (map snd (groupByCategory PRINCIPLES)) = PRINCIPLES.
Proof.
  intros grouped.
  assert (Hk : map fst grouped = Js.setOf (map category principles))
    by apply groupByCategory_keys.
  assert (Hnd : NoDup (map fst grouped)) by (rewrite Hk; apply setOf_NoDup).
  split; [exact Hk|]. split; [exact Hnd|].
  split; [|split; [apply groupByCategory_concat|split]].
  - intros c l. rewrite (mapGet_elem grouped c l Hnd).
    subst grouped. rewrite groupByCategory_get.
    destruct (List.filter (fun p => bool_decide (category p = c)) principles)
      as [|x r].
    + split; [discriminate | by intros [-> ?]].
    + split; [by intros [= <-] | by intros [-> _]].
  - vm_compute. reflexivity.
  - apply (bool_decide_unpack _). vm_compute. reflexivity.
Qed.

(** X22. A Latin-1 text in which no code unit is a token character after
    lowercasing (none of A-Z, a-z, 0-9 and the hyphen occurs) has no tokens,
    and the context search finds nothing for it. *)
Theorem text_without_token_characters_finds_nothing (text : jsstring) :
  latin1 text ->
  Forall (fun c => isTokenChar (Js.lowerUnit c) = false) text ->
  tokenize text = [] /\ searchByContext text = [].
Proof.
  intros HL H.
  assert (E : tokenize text = []).
  { induction H as [|c s Hc Hs IH]; [reflexivity|].
    change (c :: s) with ([] ++ c :: s).
    rewrite (tokenize_app_separator c [] s HL Hc). apply IH.
    unfold latin1 in *. by inversion HL. }
  split; [exact E|]. apply searchByContext_no_tokens.
  unfold tokenizeAndFilter. by rewrite E.
Qed.

Lemma text_without_token_characters_finds_nothing_witness :
  searchByContext (js " ?! (...) ") = [].
Proof.
  refine (proj2 (text_without_token_characters_finds_nothing
                   (js " ?! (...) ") _ _)).
  - apply (bool_decide_unpack _). vm_compute. exact I.
  - apply (bool_decide_unpack _). vm_compute. exact I.
Defined.
